(** * Quantum Veil: the TypeScript privacy client, embedded in Rocq

    The development follows the TypeScript sources of the client:

    - [client/typescript/src/crypto.ts] and
      [client/typescript/src/crypto/encryption.ts]: [encrypt], [decrypt],
      [encryptChaCha20], [decryptChaCha20];
    - the client class [GlitchGangPrivacyClient]: its constructor,
      [loadVrmModel], [protectMetadata], [getSensitiveAttributes],
      [decryptMetadata], [applyVrmPrivacyMask], [isViewerTrusted] and the
      four noise helpers;
    - [models/metadata.ts] and the VRM models for the data;
    - [examples/web/index.html]: the noise levels of [updateVrmPrivacy],
      the check boxes of [updateProtectedAttributes], and the two callers
      of the client, [applyPrivacyProtection] and [applyPrivacyLevel];
    - the rest of the client: [addVrmPrivacy], and [fetchMetadata] and
      [saveProtectedMetadata] given the outcome of their I/O;
    - [client/typescript/src/index.ts]: [runDemo];
    - [crypto/encryption.ts] and [crypto/index.ts]: [encryptWithPassword],
      [decryptWithPassword], [createSecureKey], [hashData],
      [createDeterministicHash];
    - [clients/typescript/utils/index.ts]: [truncateString],
      [formatPublicKey], [arraysEqual], [arrayToMap], [retry].

    JavaScript effects are explicit: one [World] holds the object store of
    behavioural frames, the two randomness sources, the console and the
    record of the cipher objects that were created; a method is a function
    [World -> result A * World], and [try]/[catch] is a combinator.

    Numbers are reals extended with [NaN].  The ciphers, base64 and JSON
    are the interface [Runtime]; theorems name the contracts of the runtime
    they rely on, and a small executable runtime shows that the contracts
    can be met. *)

From Stdlib Require Import Reals Lra Lia ZArith List String Bool.
From Stdlib.Strings Require Import Byte Ascii.
From stdpp Require Import gmap strings list.
Import ListNotations.

#[local] Open Scope string_scope.
#[local] Open Scope list_scope.
#[local] Open Scope nat_scope.

(** ** Numbers

    A JavaScript [number] is modelled by a real, or by [NaN].  Rounding and
    overflow of IEEE doubles are outside the model; what is kept is the one
    way this code can leave the finite numbers, the division [0 / 0]. *)

Inductive number : Type :=
| Num (r : R)
| NaN.

Definition lift1 (f : R -> R) (a : number) : number :=
  match a with Num x => Num (f x) | NaN => NaN end.

Definition lift2 (f : R -> R -> R) (a b : number) : number :=
  match a, b with Num x, Num y => Num (f x y) | _, _ => NaN end.

Definition nadd : number -> number -> number := lift2 Rplus.
Definition nsub : number -> number -> number := lift2 Rminus.
Definition nmul : number -> number -> number := lift2 Rmult.

(** [a / b]: a zero divisor gives a non-finite value. *)
Definition ndiv (a b : number) : number :=
  match a, b with
  | Num x, Num y => if Req_dec_T y 0 then NaN else Num (x / y)
  | _, _ => NaN
  end.

(** [a ** 2]. *)
Definition nsquare (a : number) : number := nmul a a.

(** [Math.sqrt]: [NaN] below zero. *)
Definition Math_sqrt (a : number) : number :=
  match a with
  | Num x => if Rlt_dec x 0 then NaN else Num (sqrt x)
  | NaN => NaN
  end.

Definition Math_sin : number -> number := lift1 sin.
Definition Math_cos : number -> number := lift1 cos.
Definition Math_PI : number := Num PI.

(** [Math.max] and [Math.min] return [NaN] as soon as one argument is. *)
Definition Math_max : number -> number -> number := lift2 Rmax.
Definition Math_min : number -> number -> number := lift2 Rmin.

Declare Scope number_scope.
Delimit Scope number_scope with num.
Bind Scope number_scope with number.
Infix "+" := nadd : number_scope.
Infix "-" := nsub : number_scope.
Infix "*" := nmul : number_scope.
Infix "/" := ndiv : number_scope.

Definition is_finite (a : number) : Prop :=
  match a with Num _ => True | NaN => False end.

(** ** models/vrm.ts *)

Module PrivacyLevel.

(** [enum PrivacyLevel { None = 0, Light = 1, Medium = 2, Heavy = 3,
    Complete = 4 }]. *)
Inductive t : Type := None | Light | Medium | Heavy | Complete.

Definition to_nat (l : t) : nat :=
  match l with
  | None => 0 | Light => 1 | Medium => 2 | Heavy => 3 | Complete => 4
  end.

(** The reverse mapping [PrivacyLevel[level]] of a TypeScript enum. *)
Definition name (l : t) : string :=
  match l with
  | None => "None" | Light => "Light" | Medium => "Medium"
  | Heavy => "Heavy" | Complete => "Complete"
  end.

(** The tier below; [None] has none and is mapped to itself. *)
Definition below (l : t) : t :=
  match l with
  | None => None | Light => None | Medium => Light
  | Heavy => Medium | Complete => Heavy
  end.

End PrivacyLevel.

Record PositionData : Type := mkPosition {
  pos_x : number;
  pos_y : number;
  pos_z : number
}.

Record RotationData : Type := mkRotation {
  rot_x : number;
  rot_y : number;
  rot_z : number;
  rot_w : number
}.

Record VoiceData : Type := mkVoice {
  frequency : list number;
  amplitude : list number;
  pitch : number;
  timbre : number
}.

(** A [Map] of the source is a finite map; values of type [any] are kept
    as strings. *)
Record GestureData : Type := mkGesture {
  gesture_name : string;
  intensity : number;
  speed : number;
  jointRotations : gmap string RotationData
}.

Record VrmData : Type := mkVrmData {
  position : PositionData;
  rotation : RotationData;
  voice : option VoiceData;
  gestures : list GestureData;
  animations : gmap string number;
  customData : gmap string string
}.

(** ** models/metadata.ts *)

Record Attribute : Type := mkAttribute {
  trait_type : string;
  value : string
}.

Record File : Type := mkFile { uri : string }.

Record Properties : Type := mkProperties { files : list File }.

Record VrmConfig : Type := mkVrmConfig {
  modelUri : string;
  privacySettings : list (string * string)
}.

Record PrivateData : Type := mkPrivateData {
  privacyLevel : string;
  encryptedAttributes : option string;
  timelineFragments : option (list string);
  vrmConfig : option VrmConfig
}.

Record GlitchGangMetadata : Type := mkMetadata {
  name : string;
  symbol : string;
  description : string;
  attributes : list Attribute;
  image : string;
  properties : Properties;
  privateData : option PrivateData
}.

#[global] Instance Attribute_eq_dec : EqDecision Attribute.
Proof. solve_decision. Defined.

(** ** Bytes *)

Abbreviation bytes := (list byte).

#[global] Instance byte_eq_decision : EqDecision byte := Byte.byte_eq_dec.

(** [buf.subarray(start, stop)] and [buf.subarray(start)]: both ends are
    clamped to the length of the buffer. *)
Definition subarray (buf : bytes) (start stop : nat) : bytes :=
  firstn (stop - start) (skipn start buf).

Definition subarray_from (buf : bytes) (start : nat) : bytes :=
  skipn start buf.

(** [Buffer.from(str)] and [buf.toString()]: a string of the model is the
    UTF-8 byte sequence of the JavaScript string. *)
Definition Buffer_from (s : string) : bytes := list_byte_of_string s.
Definition Buffer_toString (b : bytes) : string := string_of_list_byte b.

(** Flipping bit [i] of a buffer: bit [i mod 8] of byte [i / 8]. *)
Definition flip_byte (k : nat) (b : byte) : byte :=
  match Byte.of_N (N.lxor (Byte.to_N b) (2 ^ N.of_nat k)) with
  | Some b' => b'
  | None => b
  end.

Fixpoint flip_at (j k : nat) (buf : bytes) : bytes :=
  match buf with
  | [] => []
  | b :: rest =>
      match j with
      | O => flip_byte k b :: rest
      | S j' => b :: flip_at j' k rest
      end
  end.

Definition flip_bit (i : nat) (buf : bytes) : bytes :=
  flip_at (i / 8) (i mod 8) buf.

(** The wire record [[nonce][tag][ciphertext]] of [encrypt]. *)
Definition wire (iv : bytes) (sealed : bytes * bytes) : bytes :=
  iv ++ snd sealed ++ fst sealed.

(** ** Errors, the world and the method monad *)

Inductive Algorithm : Type := aes_256_gcm | chacha20_poly1305.

(** What the code and the [node:crypto] calls it makes can throw.
    [AuthenticationError] is the failure of [decipher.final()] ("unable to
    authenticate data"); [KeySizeError] is the [Error] the ChaCha20
    functions throw themselves. *)
Inductive JsError : Type :=
| UnknownCipher
| InvalidKeyLength
| InvalidIV
| InvalidAuthTagLength (n : nat)
| AuthenticationError
| KeySizeError
| SyntaxError
| TypeError
| LoadError (msg : string).

Inductive result (A : Type) : Type :=
| Ok (a : A)
| Throw (e : JsError).
Arguments Ok {A} a.
Arguments Throw {A} e.

Inductive ConsoleLine : Type :=
| console_log (msg : string)
| console_warn (msg : string)
| console_error (msg : string) (e : JsError).

Inductive CipherCall : Type :=
| createCipheriv (a : Algorithm)
| createDecipheriv (a : Algorithm).

(** Objects of type [VrmData] live in [heap] and are handled through their
    address; [Math_random_src] and [randomBytes_src] are the values the two
    randomness sources will return, in order. *)
Record World : Type := mkWorld {
  heap : gmap positive VrmData;
  Math_random_src : nat -> R;
  randomBytes_src : nat -> byte;
  console : list ConsoleLine;
  cipherCalls : list CipherCall
}.

Definition Js (A : Type) : Type := World -> result A * World.

#[global] Instance Js_ret : MRet Js := fun A a w => (Ok a, w).

#[global] Instance Js_bind : MBind Js := fun A B k m w =>
  match m w with
  | (Ok a, w') => k a w'
  | (Throw e, w') => (Throw e, w')
  end.

Definition throw {A : Type} (e : JsError) : Js A := fun w => (Throw e, w).

(** [try { body } catch (e) { handler }]: effects of [body] up to the throw
    stay. *)
Definition try_catch {A : Type} (body : Js A) (handler : JsError -> Js A)
  : Js A := fun w =>
  match body w with
  | (Ok a, w') => (Ok a, w')
  | (Throw e, w') => handler e w'
  end.

(** The updates of the world. *)
Definition logged (l : ConsoleLine) (w : World) : World :=
  mkWorld (heap w) (Math_random_src w) (randomBytes_src w)
    (console w ++ [l]) (cipherCalls w).

Definition called (c : CipherCall) (w : World) : World :=
  mkWorld (heap w) (Math_random_src w) (randomBytes_src w)
    (console w) (cipherCalls w ++ [c]).

Definition drawn (n : nat) (w : World) : World :=
  mkWorld (heap w) (fun i => Math_random_src w (n + i)) (randomBytes_src w)
    (console w) (cipherCalls w).

Definition bytes_drawn (n : nat) (w : World) : World :=
  mkWorld (heap w) (Math_random_src w) (fun i => randomBytes_src w (n + i))
    (console w) (cipherCalls w).

Definition stored (l : positive) (v : VrmData) (w : World) : World :=
  mkWorld (<[l := v]> (heap w)) (Math_random_src w) (randomBytes_src w)
    (console w) (cipherCalls w).

(** The next [n] bytes [crypto.randomBytes] will return. *)
Definition next_bytes (n : nat) (w : World) : bytes :=
  map (randomBytes_src w) (seq 0 n).

Definition console_write (l : ConsoleLine) : Js unit := fun w =>
  (Ok tt, logged l w).

Definition record_call (c : CipherCall) : Js unit := fun w =>
  (Ok tt, called c w).

(** [Math.random()]. *)
Definition Math_random : Js number := fun w =>
  (Ok (Num (Math_random_src w 0)), drawn 1 w).

(** [crypto.randomBytes(n)]. *)
Definition randomBytes (n : nat) : Js bytes := fun w =>
  (Ok (next_bytes n w), bytes_drawn n w).

(** Allocation of a fresh object, reading and writing through an address. *)
Definition alloc (v : VrmData) : Js positive := fun w =>
  let l := fresh (dom (heap w)) in (Ok l, stored l v w).

Definition load (l : positive) : Js VrmData := fun w =>
  match heap w !! l with
  | Some v => (Ok v, w)
  | None => (Throw TypeError, w)
  end.

Definition store (l : positive) (v : VrmData) : Js unit := fun w =>
  (Ok tt, stored l v w).

(** [for (const x of xs) body(x)], collecting the updated elements. *)
Fixpoint for_each {A B : Type} (body : A -> Js B) (xs : list A)
  : Js (list B) :=
  match xs with
  | [] => mret []
  | x :: rest => y ← body x; ys ← for_each body rest; mret (y :: ys)
  end.

(** ** The runtime: [node:crypto], [Buffer] and [JSON]

    The ciphers, the base64 codec and the JSON codec are library code; the
    client is verified against their interface.  [aead_encrypt a key iv data]
    is the pair (ciphertext, tag) that [update]/[final]/[getAuthTag]
    produce; [aead_decrypt a key iv tag ciphertext] is [None] when
    [final()] rejects the tag. *)
Class Runtime : Type := {
  chacha20_supported : bool;
  aead_encrypt : Algorithm -> bytes -> bytes -> bytes -> bytes * bytes;
  aead_decrypt : Algorithm -> bytes -> bytes -> bytes -> bytes -> option bytes;
  base64_encode : bytes -> string;
  base64_decode : string -> bytes;
  JSON_stringify : list Attribute -> string;
  JSON_parse : string -> option (list Attribute)
}.

(** The contracts of the runtime that individual theorems rely on. *)
Class AeadCorrect (rt : Runtime) : Prop := {
  aead_tag_length : forall a key iv data,
    length (snd (aead_encrypt a key iv data)) = 16;
  aead_decrypt_encrypt : forall a key iv data,
    aead_decrypt a key iv (snd (aead_encrypt a key iv data))
      (fst (aead_encrypt a key iv data)) = Some data
}.

Class CodecCorrect (rt : Runtime) : Prop := {
  base64_decode_encode : forall b, base64_decode (base64_encode b) = b;
  base64_decode_empty : base64_decode "" = [];
  JSON_parse_stringify : forall l, JSON_parse (JSON_stringify l) = Some l
}.

(** Integrity of the ciphers against a single flipped bit: what
    [aead_encrypt] produced is rejected by [aead_decrypt] once one bit of
    the IV, of the tag or of the ciphertext has been flipped. *)
Class AeadTamperEvident (rt : Runtime) : Prop := {
  aead_rejects_iv_flip : forall a key iv data i,
    i < 8 * length iv ->
    aead_decrypt a key (flip_bit i iv) (snd (aead_encrypt a key iv data))
      (fst (aead_encrypt a key iv data)) = None;
  aead_rejects_tag_flip : forall a key iv data i,
    i < 8 * length (snd (aead_encrypt a key iv data)) ->
    aead_decrypt a key iv (flip_bit i (snd (aead_encrypt a key iv data)))
      (fst (aead_encrypt a key iv data)) = None;
  aead_rejects_ciphertext_flip : forall a key iv data i,
    i < 8 * length (fst (aead_encrypt a key iv data)) ->
    aead_decrypt a key iv (snd (aead_encrypt a key iv data))
      (flip_bit i (fst (aead_encrypt a key iv data))) = None
}.

Section WithRuntime.

Context {rt : Runtime}.

Definition supported (a : Algorithm) : bool :=
  match a with
  | aes_256_gcm => true
  | chacha20_poly1305 => chacha20_supported
  end.

(** Argument checks of [createCipheriv]/[createDecipheriv] and of
    [setAuthTag]: a 256-bit key for both ciphers; a non-empty IV, of at
    most 12 bytes for ChaCha20-Poly1305; a GCM tag of 4, 8 or 12 to 16
    bytes, and exactly [authTagLength: 16] bytes for ChaCha20-Poly1305. *)
Definition iv_length_ok (a : Algorithm) (n : nat) : bool :=
  match a with
  | aes_256_gcm => 0 <? n
  | chacha20_poly1305 => (0 <? n) && (n <=? 12)
  end.

Definition auth_tag_length_ok (a : Algorithm) (n : nat) : bool :=
  match a with
  | aes_256_gcm =>
      (n =? 4) || (n =? 8) || ((12 <=? n) && (n <=? 16))
  | chacha20_poly1305 => n =? 16
  end.

Definition check_cipher_args (a : Algorithm) (key iv : bytes) : Js unit :=
  if negb (supported a) then throw UnknownCipher
  else if negb (length key =? 32) then throw InvalidKeyLength
  else if negb (iv_length_ok a (length iv)) then throw InvalidIV
  else mret tt.

(** [createCipheriv(a, key, iv)], [update], [final], [getAuthTag]. *)
Definition seal_with (a : Algorithm) (key iv data : bytes)
  : Js (bytes * bytes) :=
  record_call (createCipheriv a);;
  check_cipher_args a key iv;;
  mret (aead_encrypt a key iv data).

(** [createDecipheriv(a, key, iv)], [setAuthTag], [update], [final]. *)
Definition open_with (a : Algorithm) (key iv authTag ciphertext : bytes)
  : Js bytes :=
  record_call (createDecipheriv a);;
  check_cipher_args a key iv;;
  (if auth_tag_length_ok a (length authTag) then mret tt
   else throw (InvalidAuthTagLength (length authTag)));;
  match aead_decrypt a key iv authTag ciphertext with
  | Some decrypted => mret decrypted
  | None => throw AuthenticationError
  end.

(** *** crypto.ts (and, with the same text, crypto/encryption.ts) *)

Definition encrypt (data key : bytes) : Js bytes :=
  iv ← randomBytes 16;
  '(encrypted, authTag) ← seal_with aes_256_gcm key iv data;
  mret (iv ++ authTag ++ encrypted).

Definition decrypt (encryptedData key : bytes) : Js bytes :=
  let iv := subarray encryptedData 0 16 in
  let authTag := subarray encryptedData 16 32 in
  let ciphertext := subarray_from encryptedData 32 in
  open_with aes_256_gcm key iv authTag ciphertext.

(** *** crypto/encryption.ts: the ChaCha20-Poly1305 pair *)

Definition encryptChaCha20 (data key : bytes) : Js bytes :=
  if negb (length key =? 32) then throw KeySizeError
  else
    try_catch
      (nonce ← randomBytes 12;
       '(ciphertext, authTag) ← seal_with chacha20_poly1305 key nonce data;
       mret (nonce ++ authTag ++ ciphertext))
      (fun _ =>
         console_write
           (console_warn
              "ChaCha20-Poly1305 not available, falling back to AES-GCM");;
         encrypt data key).

Definition decryptChaCha20_try (encryptedData key : bytes) : Js bytes :=
  let nonce := subarray encryptedData 0 12 in
  let authTag := subarray encryptedData 12 28 in
  let ciphertext := subarray_from encryptedData 28 in
  open_with chacha20_poly1305 key nonce authTag ciphertext.

Definition decryptChaCha20 (encryptedData key : bytes) : Js bytes :=
  if negb (length key =? 32) then throw KeySizeError
  else
    try_catch
      (decryptChaCha20_try encryptedData key)
      (fun _ =>
         console_write
           (console_warn
              "Failed to decrypt with ChaCha20-Poly1305, trying AES-GCM");;
         decrypt encryptedData key).

End WithRuntime.

(** ** The client: [GlitchGangPrivacyClient] *)

(** The loaded three-vrm model is opaque to the client; only its presence
    is tested. *)
Record VRM : Type := mkVRM { vrm_source : string }.

Record Client : Type := mkClient {
  connection : string;
  ownerKeypair : bytes;
  programId : string;
  encryptionKey : bytes;
  vrmModel : option VRM
}.

(** What the GLTF loader reports to [loadVrmModel]. *)
Inductive LoaderOutcome : Type :=
| Loaded (vrm : VRM)
| Failed (error : string).

Definition with_attributes (m : GlitchGangMetadata) (a : list Attribute)
  : GlitchGangMetadata :=
  mkMetadata (name m) (symbol m) (description m) a (image m) (properties m)
    (privateData m).

Definition with_privateData (m : GlitchGangMetadata) (p : PrivateData)
  : GlitchGangMetadata :=
  mkMetadata (name m) (symbol m) (description m) (attributes m) (image m)
    (properties m) (Some p).

(** [xs.includes(s)] on an array of strings. *)
Definition includes (xs : list string) (s : string) : bool :=
  existsb (String.eqb s) xs.

(** A string used as a condition: [undefined] and [""] are falsy. *)
Definition truthy (s : option string) : bool :=
  match s with
  | Some s => negb (String.eqb s "")
  | None => false
  end.

(** [JSON.parse(JSON.stringify(x))] on a frame.  A [NaN] is written as
    [null], which every later arithmetic use reads as [0]; a [Map] is
    written as [{}]. *)
Definition clone_number (a : number) : number :=
  match a with Num x => Num x | NaN => Num 0 end.

Definition clone_position (p : PositionData) : PositionData :=
  mkPosition (clone_number (pos_x p)) (clone_number (pos_y p))
    (clone_number (pos_z p)).

Definition clone_rotation (r : RotationData) : RotationData :=
  mkRotation (clone_number (rot_x r)) (clone_number (rot_y r))
    (clone_number (rot_z r)) (clone_number (rot_w r)).

Definition clone_voice (v : VoiceData) : VoiceData :=
  mkVoice (map clone_number (frequency v)) (map clone_number (amplitude v))
    (clone_number (pitch v)) (clone_number (timbre v)).

Definition clone_gesture (g : GestureData) : GestureData :=
  mkGesture (gesture_name g) (clone_number (intensity g))
    (clone_number (speed g)) ∅.

Definition JSON_clone (v : VrmData) : VrmData :=
  mkVrmData (clone_position (position v)) (clone_rotation (rotation v))
    (option_map clone_voice (voice v)) (map clone_gesture (gestures v)) ∅ ∅.

Section Client.

Context {rt : Runtime}.

(** [constructor(endpoint, ownerKeypair, programId, encryptionKey?)]. *)
Definition new_client (endpoint : string) (keypair : bytes)
    (program : string) (key : option bytes) : Js Client :=
  k ← match key with
      | Some k => mret k
      | None => randomBytes 32
      end;
  mret (mkClient endpoint keypair program k None).

(** [loadVrmModel(modelUri)], given what the loader answers: the model is
    recorded in the client when, and only when, loading succeeds. *)
Definition loadVrmModel (this : Client) (uri : string)
    (outcome : LoaderOutcome) : Js (Client * VRM) :=
  console_write (console_log (String.append "Loading VRM model: " uri));;
  match outcome with
  | Loaded vrm =>
      mret (mkClient (connection this) (ownerKeypair this) (programId this)
              (encryptionKey this) (Some vrm), vrm)
  | Failed error =>
      throw (LoadError (String.append "Error loading VRM: " error))
  end.

Definition getSensitiveAttributes (level : PrivacyLevel.t) : list string :=
  match level with
  | PrivacyLevel.None => []
  | PrivacyLevel.Light => ["Secret Code"; "Agent Name"]
  | PrivacyLevel.Medium => ["Secret Code"; "Agent Name"; "Mission"; "Origin"]
  | PrivacyLevel.Heavy
  | PrivacyLevel.Complete =>
      ["Secret Code"; "Agent Name"; "Mission"; "Origin"; "Accessory";
       "Symbols"]
  end.

(** One turn of the loop of [protectMetadata]; the accumulator is
    [(privateAttrs, publicAttrs)]. *)
Definition sort_attribute (sensitiveAttributes : list string)
    (acc : list Attribute * list Attribute) (attr : Attribute)
  : list Attribute * list Attribute :=
  if includes sensitiveAttributes (trait_type attr)
  then (fst acc ++ [attr], snd acc)
  else (fst acc, snd acc ++ [attr]).

Definition protectMetadata (this : Client) (metadata : GlitchGangMetadata)
    (level : PrivacyLevel.t) : Js GlitchGangMetadata :=
  console_write
    (console_log
       (String.append "Applying privacy level: " (PrivacyLevel.name level)));;
  let sensitiveAttributes := getSensitiveAttributes level in
  let '(privateAttrs, publicAttrs) :=
    fold_left (sort_attribute sensitiveAttributes) (attributes metadata)
      ([], []) in
  let protectedMetadata := with_attributes metadata publicAttrs in
  if 0 <? length privateAttrs then
    let privateJson := JSON_stringify privateAttrs in
    encrypted ← encrypt (Buffer_from privateJson) (encryptionKey this);
    let encryptedB64 := base64_encode encrypted in
    mret (with_privateData protectedMetadata
            (mkPrivateData (PrivacyLevel.name level) (Some encryptedB64)
               None None))
  else mret protectedMetadata.

(** [JSON.parse], which throws on text that is not JSON. *)
Definition JSON_parse_or_throw (s : string) : Js (list Attribute) :=
  match JSON_parse s with
  | Some attrs => mret attrs
  | None => throw SyntaxError
  end.

Definition decryptMetadata (this : Client)
    (protectedMetadata : GlitchGangMetadata) : Js GlitchGangMetadata :=
  let sealed := privateData protectedMetadata ≫= encryptedAttributes in
  if negb (truthy sealed) then mret protectedMetadata
  else
    try_catch
      (let encryptedData := base64_decode (default "" sealed) in
       decryptedData ← decrypt encryptedData (encryptionKey this);
       privateAttrs ← JSON_parse_or_throw (Buffer_toString decryptedData);
       mret (with_attributes protectedMetadata
               (attributes protectedMetadata ++ privateAttrs)))
      (fun error =>
         console_write (console_error "Failed to decrypt metadata:" error);;
         mret protectedMetadata).

(** *** Behavioural frames *)

Definition isViewerTrusted (viewerId : string) (nftMint : option string)
  : bool :=
  let trustedAgents := ["agent1.glitch.gang"; "agent2.glitch.gang"] in
  includes trustedAgents viewerId.

(** [(Math.random() - 0.5) * 2 * intensity]. *)
Definition centred_noise (intensity : number) : Js number :=
  r ← Math_random;
  mret ((r - Num 0.5) * Num 2 * intensity)%num.

Definition addPositionNoise (p : PositionData) (intensity : number)
  : Js PositionData :=
  dx ← centred_noise intensity;
  dy ← centred_noise intensity;
  dz ← centred_noise intensity;
  mret (mkPosition (pos_x p + dx) (pos_y p + dy) (pos_z p + dz))%num.

(** The quaternion product [a * b] as [addRotationNoise] writes it. *)
Definition quat_mul (a b : RotationData) : RotationData :=
  (mkRotation
     (rot_w a * rot_x b + rot_x a * rot_w b + rot_y a * rot_z b
      - rot_z a * rot_y b)
     (rot_w a * rot_y b - rot_x a * rot_z b + rot_y a * rot_w b
      + rot_z a * rot_x b)
     (rot_w a * rot_z b + rot_x a * rot_y b - rot_y a * rot_x b
      + rot_z a * rot_w b)
     (rot_w a * rot_w b - rot_x a * rot_x b - rot_y a * rot_y b
      - rot_z a * rot_z b))%num.

Definition quat_mag (q : RotationData) : number :=
  Math_sqrt (nsquare (rot_x q) + nsquare (rot_y q) + nsquare (rot_z q)
             + nsquare (rot_w q))%num.

Definition quat_normalize (q : RotationData) : RotationData :=
  let rotMag := quat_mag q in
  (mkRotation (rot_x q / rotMag) (rot_y q / rotMag) (rot_z q / rotMag)
     (rot_w q / rotMag))%num.

(** The noise quaternion built from the four draws of
    [addRotationNoise]. *)
Definition noise_quaternion (intensity r0 r1 r2 r3 : number)
  : RotationData :=
  (let noiseAngle := intensity * Math_PI * r0 in
   let noiseAxisX := r1 * Num 2 - Num 1 in
   let noiseAxisY := r2 * Num 2 - Num 1 in
   let noiseAxisZ := r3 * Num 2 - Num 1 in
   let mag :=
     Math_sqrt (nsquare noiseAxisX + nsquare noiseAxisY
                + nsquare noiseAxisZ) in
   let normalizedX := noiseAxisX / mag in
   let normalizedY := noiseAxisY / mag in
   let normalizedZ := noiseAxisZ / mag in
   let sinHalfAngle := Math_sin (noiseAngle / Num 2) in
   let cosHalfAngle := Math_cos (noiseAngle / Num 2) in
   mkRotation (normalizedX * sinHalfAngle) (normalizedY * sinHalfAngle)
     (normalizedZ * sinHalfAngle) cosHalfAngle)%num.

Definition addRotationNoise (q : RotationData) (intensity : number)
  : Js RotationData :=
  r0 ← Math_random;
  r1 ← Math_random;
  r2 ← Math_random;
  r3 ← Math_random;
  mret (quat_normalize (quat_mul q (noise_quaternion intensity r0 r1 r2 r3))).

Definition addVoiceNoise (v : VoiceData) (intensity : number)
  : Js VoiceData :=
  fs ← for_each
         (fun f =>
            r ← Math_random;
            mret (f + (r - Num 0.5) * Num 2 * intensity * Num 100)%num)
         (frequency v);
  amps ← for_each
           (fun a =>
              d ← centred_noise intensity;
              mret (Math_max (Num 0) (a + d)%num))
           (amplitude v);
  rp ← Math_random;
  dt ← centred_noise intensity;
  mret (mkVoice fs amps
          (pitch v + (rp - Num 0.5) * Num 2 * intensity * Num 50)%num
          (Math_max (Num 0) (Math_min (Num 1) (timbre v + dt)%num))).

Definition addGestureNoise (g : GestureData) (intensity_ : number)
  : Js GestureData :=
  di ← centred_noise intensity_;
  ds ← centred_noise intensity_;
  mret (mkGesture (gesture_name g)
          (Math_max (Num 0) (Math_min (Num 1) (intensity g + di)%num))
          (Math_max (Num 0.1) (speed g + ds)%num)
          (jointRotations g)).

(** [applyVrmPrivacyMask(vrmData, viewerId?, nftMint?)]; [vrmData] and the
    result are addresses of frames. *)
Definition applyVrmPrivacyMask (this : Client) (vrmData : positive)
    (viewerId nftMint : option string) : Js positive :=
  console_write
    (console_log
       (String.append "Applying VRM privacy mask"
          (if truthy viewerId
           then String.append " for viewer: " (default "" viewerId)
           else "")));;
  match vrmModel this with
  | None => mret vrmData
  | Some _ =>
      let isTrusted :=
        if truthy viewerId
        then isViewerTrusted (default "" viewerId) nftMint
        else false in
      if isTrusted then mret vrmData
      else
        original ← load vrmData;
        maskedData ← alloc (JSON_clone original);
        m ← load maskedData;
        p ← addPositionNoise (position m) (Num 0.5);
        r ← addRotationNoise (rotation m) (Num 0.3);
        v ← match voice m with
            | Some v => v' ← addVoiceNoise v (Num 0.7); mret (Some v')
            | None => mret None
            end;
        gs ← for_each (fun g => addGestureNoise g (Num 0.4)) (gestures m);
        store maskedData
          (mkVrmData p r v gs (animations m) (customData m));;
        mret maskedData
  end.

End Client.

(** The two halves of a bundle at a tier. *)
Definition is_sensitive (level : PrivacyLevel.t) (a : Attribute) : bool :=
  includes (getSensitiveAttributes level) (trait_type a).

Definition private_part (level : PrivacyLevel.t) (l : list Attribute)
  : list Attribute := List.filter (is_sensitive level) l.

Definition public_part (level : PrivacyLevel.t) (l : list Attribute)
  : list Attribute := List.filter (fun a => negb (is_sensitive level a)) l.

(** The sealed record a bundle carries, if any:
    [metadata.privateData?.encryptedAttributes]. *)
Definition sealed_record (m : GlitchGangMetadata) : option string :=
  privateData m ≫= encryptedAttributes.

(** The line [applyVrmPrivacyMask] writes to the console. *)
Definition mask_line (viewerId : option string) : ConsoleLine :=
  console_log
    (String.append "Applying VRM privacy mask"
       (if truthy viewerId
        then String.append " for viewer: " (default "" viewerId)
        else "")).

(** The four noise steps of [applyVrmPrivacyMask] on the cloned frame, with
    the intensities it passes as parameters (position, rotation, voice,
    gesture). *)
Definition noise_pass (ip ir iv ig : number) (m : VrmData) : Js VrmData :=
  p ← addPositionNoise (position m) ip;
  r ← addRotationNoise (rotation m) ir;
  v ← match voice m with
      | Some v => v' ← addVoiceNoise v iv; mret (Some v')
      | None => mret None
      end;
  gs ← for_each (fun g => addGestureNoise g ig) (gestures m);
  mret (mkVrmData p r v gs (animations m) (customData m)).

(** [w'] is [w] after [n] calls of [Math.random()] and nothing else. *)
Definition after_draws (n : nat) (w w' : World) : Prop :=
  heap w' = heap w
  /\ randomBytes_src w' = randomBytes_src w
  /\ console w' = console w
  /\ cipherCalls w' = cipherCalls w
  /\ forall i, Math_random_src w' i = Math_random_src w (n + i).

(** The number of draws of one noise pass over a frame. *)
Definition draws_of (m : VrmData) : nat :=
  3 + 4
  + match voice m with
    | Some v => length (frequency v) + length (amplitude v) + 2
    | None => 0
    end
  + 2 * length (gestures m).

(** The squared norm of a quaternion with finite components. *)
Definition norm2 (x y z w : R) : R := (x * x + y * y + z * z + w * w)%R.

(** ** examples/web/index.html: the noise levels of [updateVrmPrivacy]

    The four values [(positionNoise, rotationNoise, gestureNoise,
    voiceDistortion)] the demo page selects from the privacy level of its
    form, before the per-field check boxes are applied. *)
Definition updateVrmPrivacy_levels (privacyLevel : nat) (isTrusted : bool)
  : R * R * R * R :=
  if isTrusted then (0, 0, 0, 0)%R
  else
    match privacyLevel with
    | 1 => (0.2, 0.1, 0.2, 20)%R
    | 2 => (0.5, 0.3, 0.5, 50)%R
    | 3 => (1.0, 0.6, 0.8, 80)%R
    | 4 => (2.0, 1.0, 1.0, 100)%R
    | _ => (0, 0, 0, 0)%R
    end.

(** ** The tables of the specification

    Written from the words of the specification, to be compared with the
    code. *)
Module Spec.

(** "None -> {}; Light -> {SecretCode, AgentName}; Medium -> Light +
    {Mission, Origin}; Heavy and Complete -> Medium + {Accessory,
    Symbols}", with the category names as the client spells them. *)
Definition classify (level : PrivacyLevel.t) : list string :=
  match level with
  | PrivacyLevel.None => []
  | PrivacyLevel.Light => ["Secret Code"; "Agent Name"]
  | PrivacyLevel.Medium =>
      ["Secret Code"; "Agent Name"] ++ ["Mission"; "Origin"]
  | PrivacyLevel.Heavy | PrivacyLevel.Complete =>
      (["Secret Code"; "Agent Name"] ++ ["Mission"; "Origin"])
      ++ ["Accessory"; "Symbols"]
  end.

(** "Intensity table by level (position, rotation, gesture, voice%)". *)
Definition intensity_table (level : PrivacyLevel.t) : R * R * R * R :=
  match level with
  | PrivacyLevel.None => (0, 0, 0, 0)%R
  | PrivacyLevel.Light => (0.2, 0.1, 0.2, 20)%R
  | PrivacyLevel.Medium => (0.5, 0.3, 0.5, 50)%R
  | PrivacyLevel.Heavy => (1.0, 0.6, 0.8, 80)%R
  | PrivacyLevel.Complete => (2.0, 1.0, 1.0, 100)%R
  end.

Definition position_intensity (level : PrivacyLevel.t) : R :=
  fst (fst (fst (intensity_table level))).

End Spec.

(** ** A reference runtime

    A small executable runtime on which the client can be run on concrete
    inputs: the base64 alphabet of RFC 4648 with padding, JSON text for
    arrays of attributes, and a keyed stream cipher with a 16-byte tag in
    the place of the two AEAD ciphers of [node:crypto].  It is not a model
    of AES or ChaCha20; it serves to show that the contracts above can be
    met and to evaluate the client. *)
Module Ref.

Definition byte_of_N (n : N) : byte := default x00 (Byte.of_N n).

Definition xor_byte (a b : byte) : byte :=
  byte_of_N (N.lxor (Byte.to_N a) (Byte.to_N b)).

Definition all_bytes : list byte :=
  map (fun n => byte_of_N (N.of_nat n)) (seq 0 256).

(** *** base64 *)

Definition alphabet : list ascii :=
  list_ascii_of_string
    "ABCDEFGHIJKLMNOPQRSTUVWXYZabcdefghijklmnopqrstuvwxyz0123456789+/".

(** Sextet [64] stands for the padding character. *)
Definition char_of_sextet (s : N) : ascii :=
  nth (N.to_nat s) alphabet "="%char.

Fixpoint find_index (c : ascii) (l : list ascii) (i : N) : N :=
  match l with
  | [] => i
  | d :: l' => if Ascii.eqb c d then i else find_index c l' (N.succ i)
  end.

Definition sextet_of_char (c : ascii) : N := find_index c alphabet 0%N.

Fixpoint encode_groups (bs : list N) : list N :=
  match bs with
  | [] => []
  | [a] => [a / 4; (a mod 4) * 16; 64; 64]%N
  | [a; b] => [a / 4; (a mod 4) * 16 + b / 16; (b mod 16) * 4; 64]%N
  | a :: b :: c :: rest =>
      (a / 4 :: (a mod 4) * 16 + b / 16 :: (b mod 16) * 4 + c / 64
       :: c mod 64 :: encode_groups rest)%N
  end.

Fixpoint decode_groups (ss : list N) : list N :=
  match ss with
  | s0 :: s1 :: s2 :: s3 :: rest =>
      if ((64 <=? s0) || (64 <=? s1))%N then []
      else if (64 <=? s2)%N then [s0 * 4 + s1 / 16]%N
      else if (64 <=? s3)%N
      then [s0 * 4 + s1 / 16; (s1 mod 16) * 16 + s2 / 4]%N
      else
        (s0 * 4 + s1 / 16 :: (s1 mod 16) * 16 + s2 / 4
         :: (s2 mod 4) * 64 + s3 :: decode_groups rest)%N
  | _ => []
  end.

Definition base64_encode (b : bytes) : string :=
  string_of_list_ascii (map char_of_sextet (encode_groups (map Byte.to_N b))).

Definition base64_decode (s : string) : bytes :=
  map byte_of_N (decode_groups (map sextet_of_char (list_ascii_of_string s))).

(** *** JSON text of an array of attributes *)

Definition dquote : ascii := ascii_of_nat 34.
Definition backslash : ascii := ascii_of_nat 92.

Fixpoint escape (s : string) : string :=
  match s with
  | EmptyString => EmptyString
  | String c s' =>
      if Ascii.eqb c dquote || Ascii.eqb c backslash
      then String backslash (String c (escape s'))
      else String c (escape s')
  end.

Definition quote (s : string) : string :=
  String dquote (String.append (escape s) (String dquote EmptyString)).

Definition print_attribute (a : Attribute) : string :=
  String.append "{"
    (String.append (quote "trait_type")
       (String.append ":"
          (String.append (quote (trait_type a))
             (String.append ","
                (String.append (quote "value")
                   (String.append ":"
                      (String.append (quote (value a)) "}"))))))).

Fixpoint print_tail (l : list Attribute) : string :=
  match l with
  | [] => "]"
  | a :: l' =>
      String.append "," (String.append (print_attribute a) (print_tail l'))
  end.

Definition JSON_stringify (l : list Attribute) : string :=
  match l with
  | [] => "[]"
  | a :: l' =>
      String.append "[" (String.append (print_attribute a) (print_tail l'))
  end.

(** Reads the body of a string literal up to its closing quote. *)
Fixpoint read_string (s : string) : option (string * string) :=
  match s with
  | EmptyString => None
  | String c s' =>
      if Ascii.eqb c dquote then Some (EmptyString, s')
      else if Ascii.eqb c backslash then
        match s' with
        | EmptyString => None
        | String d s'' =>
            match read_string s'' with
            | Some (body, rest) => Some (String d body, rest)
            | None => None
            end
        end
      else
        match read_string s' with
        | Some (body, rest) => Some (String c body, rest)
        | None => None
        end
  end.

Fixpoint expect (prefix s : string) : option string :=
  match prefix, s with
  | EmptyString, _ => Some s
  | String c p', String d s' => if Ascii.eqb c d then expect p' s' else None
  | String _ _, EmptyString => None
  end.

Definition read_attribute (s : string) : option (Attribute * string) :=
  s1 ← expect (String.append "{" (String.append (quote "trait_type")
                 (String.append ":" (String dquote EmptyString)))) s;
  '(t, s2) ← read_string s1;
  s3 ← expect (String.append "," (String.append (quote "value")
                 (String.append ":" (String dquote EmptyString)))) s2;
  '(v, s4) ← read_string s3;
  s5 ← expect "}" s4;
  Some (mkAttribute t v, s5).

Fixpoint read_tail (fuel : nat) (s : string) : option (list Attribute) :=
  match fuel with
  | O => None
  | S fuel' =>
      match s with
      | String "]" EmptyString => Some []
      | String "," s' =>
          '(a, s'') ← read_attribute s';
          l ← read_tail fuel' s'';
          Some (a :: l)
      | _ => None
      end
  end.

Definition JSON_parse (s : string) : option (list Attribute) :=
  match s with
  | String "[" (String "]" EmptyString) => Some []
  | String "[" s' =>
      '(a, s'') ← read_attribute s';
      l ← read_tail (String.length s) s'';
      Some (a :: l)
  | _ => None
  end.

(** *** A keyed stream cipher with a tag *)

Definition algorithm_byte (a : Algorithm) : byte :=
  match a with aes_256_gcm => x47 | chacha20_poly1305 => x43 end.

Definition pad_byte (a : Algorithm) (key iv : bytes) (i : nat) : byte :=
  xor_byte (algorithm_byte a)
    (xor_byte (nth (i mod 32) key x00) (nth (i mod 16) iv x00)).

Fixpoint xor_stream (a : Algorithm) (key iv : bytes) (i : nat)
    (data : bytes) : bytes :=
  match data with
  | [] => []
  | d :: rest =>
      xor_byte d (pad_byte a key iv i) :: xor_stream a key iv (S i) rest
  end.

Definition xor_all (bs : bytes) : byte := fold_right xor_byte x00 bs.

(** The tag: one check byte over the IV and the ciphertext, then 15 bytes
    derived from the key. *)
Definition tag_of (a : Algorithm) (key iv ciphertext : bytes) : bytes :=
  xor_byte (algorithm_byte a) (xor_all (iv ++ ciphertext))
  :: map (fun i => xor_byte (algorithm_byte a) (nth i key x00)) (seq 0 15).

Definition aead_encrypt (a : Algorithm) (key iv data : bytes)
  : bytes * bytes :=
  let ciphertext := xor_stream a key iv 0 data in
  (ciphertext, tag_of a key iv ciphertext).

Definition aead_decrypt (a : Algorithm) (key iv tag ciphertext : bytes)
  : option bytes :=
  if bool_decide (tag = firstn (length tag) (tag_of a key iv ciphertext))
  then Some (xor_stream a key iv 0 ciphertext)
  else None.

(** Node with both ciphers built in, and an older one without
    ChaCha20-Poly1305. *)
Definition runtime : Runtime :=
  Build_Runtime true aead_encrypt aead_decrypt base64_encode base64_decode
    JSON_stringify JSON_parse.

Definition runtime_without_chacha : Runtime :=
  Build_Runtime false aead_encrypt aead_decrypt base64_encode base64_decode
    JSON_stringify JSON_parse.

End Ref.

(** ** Concrete inputs

    The scenario of the specification and the frame of [runDemo] in
    [index.ts]. *)
Module Demo.

Definition key : bytes :=
  map (fun i => Ref.byte_of_N (N.of_nat i)) (seq 1 32).

Definition other_key : bytes :=
  map (fun i => Ref.byte_of_N (N.of_nat i)) (seq 101 32).

Definition world : World :=
  mkWorld ∅ (fun _ => 0.75%R)
    (fun i => Ref.byte_of_N (N.of_nat (7 * i + 3) mod 256)) [] [].

Definition client : Client :=
  mkClient "https://api.devnet.solana.com" []
    "GlchWrapperProgram111111111111111111111111111" key None.

Definition client_with_model : Client :=
  mkClient "https://api.devnet.solana.com" []
    "GlchWrapperProgram111111111111111111111111111" key
    (Some (mkVRM "https://models.glitchgang.io/avatars/699.vrm")).

Definition intruder : Client :=
  mkClient "https://api.devnet.solana.com" []
    "GlchWrapperProgram111111111111111111111111111" other_key None.

Definition metadata : GlitchGangMetadata :=
  mkMetadata "Glitch Gang #699" "GLITCH" "An agent of the Glitch Gang"
    [mkAttribute "Background" "Cyber Haze";
     mkAttribute "Secret Code" "GLITCH-1";
     mkAttribute "Agent Name" "Nav"]
    "https://example.com/images/699.png" (mkProperties []) None.

Definition public_metadata : GlitchGangMetadata :=
  mkMetadata "Glitch Gang #700" "GLITCH" "An agent of the Glitch Gang"
    [mkAttribute "Background" "Cyber Haze"]
    "https://example.com/images/700.png" (mkProperties []) None.

(** [metadata] protected at tier Light by [client] in [world]. *)
Definition sealed_b64 : string :=
  match fst (protectMetadata (rt:=Ref.runtime) client metadata
               PrivacyLevel.Light world) with
  | Ok p => default "" (sealed_record p)
  | Throw _ => ""
  end.

Definition protected_metadata : GlitchGangMetadata :=
  mkMetadata "Glitch Gang #699" "GLITCH" "An agent of the Glitch Gang"
    [mkAttribute "Background" "Cyber Haze"]
    "https://example.com/images/699.png" (mkProperties [])
    (Some (mkPrivateData "Light" (Some sealed_b64) None None)).

(** The same bundle after one bit of the authentication tag of its
    sealed record was flipped (bit 130 of the record; the tag is bytes 16
    to 31). *)
Definition tampered_metadata : GlitchGangMetadata :=
  mkMetadata "Glitch Gang #699" "GLITCH" "An agent of the Glitch Gang"
    [mkAttribute "Background" "Cyber Haze"]
    "https://example.com/images/699.png" (mkProperties [])
    (Some (mkPrivateData "Light"
             (Some (Ref.base64_encode
                      (flip_bit 130 (Ref.base64_decode sealed_b64))))
             None None)).

Definition frame : VrmData :=
  mkVrmData
    (mkPosition (Num 10.5) (Num 2.0) (Num (-3.2)))
    (mkRotation (Num 0.0) (Num 0.707) (Num 0.0) (Num 0.707))
    (Some (mkVoice [Num 440.0; Num 880.0; Num 1320.0]
             [Num 0.8; Num 0.4; Num 0.2] (Num 1.0) (Num 0.5)))
    [mkGesture "wave" (Num 0.8) (Num 1.2) ∅] ∅ ∅.

Definition payload : bytes := Buffer_from "GLITCH-1".

(** A world in which [Math.random()] returns 0.5 every time. *)
Definition world_of_halves : World :=
  mkWorld ∅ (fun _ => 0.5%R)
    (fun i => Ref.byte_of_N (N.of_nat (7 * i + 3) mod 256)) [] [].

Definition identity_rotation : RotationData :=
  mkRotation (Num 0) (Num 0) (Num 0) (Num 1).

(** A world whose store holds [frame] at address 1. *)
Definition world_with_frame : World :=
  mkWorld {[ 1%positive := frame ]} (fun _ => 0.75%R)
    (fun i => Ref.byte_of_N (N.of_nat (7 * i + 3) mod 256)) [] [].

End Demo.

(** ** The client: [addVrmPrivacy]

    [updatedMetadata = { ...metadata }] is a shallow copy: the object
    [privateData] is shared between [metadata] and the copy, and the
    assignment to [updatedMetadata.privateData.vrmConfig] is an assignment
    to [metadata.privateData.vrmConfig] as well.  The state of the argument
    is therefore passed explicitly: the method returns the pair of the
    metadata it returns and of [metadata] as its caller sees it after the
    call. *)
Definition vrm_privacySettings : list (string * string) :=
  [("position", "medium"); ("voice", "high"); ("gesture", "medium");
   ("animation", "low")].

Definition addVrmPrivacy (this : Client) (metadata : GlitchGangMetadata)
    (uri : string) : Js (GlitchGangMetadata * GlitchGangMetadata) :=
  console_write
    (console_log
       (String.append "Adding VRM privacy settings for model: " uri));;
  let config := mkVrmConfig uri vrm_privacySettings in
  match privateData metadata with
  | None =>
      mret (with_privateData metadata
              (mkPrivateData "Medium" None None (Some config)),
            metadata)
  | Some shared =>
      let shared' :=
        mkPrivateData (privacyLevel shared) (encryptedAttributes shared)
          (timelineFragments shared) (Some config) in
      mret (with_privateData metadata shared',
            with_privateData metadata shared')
  end.

(** The behavioural configuration a bundle carries, if any:
    [metadata.privateData?.vrmConfig]. *)
Definition vrm_config (m : GlitchGangMetadata) : option VrmConfig :=
  privateData m ≫= vrmConfig.

(** The tier marker a bundle carries, if any. *)
Definition tier_marker (m : GlitchGangMetadata) : option string :=
  option_map privacyLevel (privateData m).

(** ** examples/web/index.html: the two callers of the client

    [applyPrivacyProtection] of the page, the body of its [try]: the result
    is the value of the page's variable [protectedMetadata], which is
    displayed and offered for download; the value [addVrmPrivacy] returns
    is not used.  [applyPrivacyLevel] of the React panel uses the returned
    value. *)
Definition applyPrivacyProtection `{rt : Runtime} (client : Client)
    (selected : GlitchGangMetadata) (level : PrivacyLevel.t)
    (vrmModelUrl : string) : Js GlitchGangMetadata :=
  protectedMetadata ← protectMetadata client selected level;
  if truthy (Some vrmModelUrl)
  then
    '(_, after) ← addVrmPrivacy client protectedMetadata vrmModelUrl;
    mret after
  else mret protectedMetadata.

Definition applyPrivacyLevel `{rt : Runtime} (client : Client)
    (metadata : GlitchGangMetadata) (level : PrivacyLevel.t)
  : Js GlitchGangMetadata :=
  protected_metadata ← protectMetadata client metadata level;
  match vrm_config protected_metadata with
  | None =>
      let vrmUri := "https://models.glitchgang.io/avatars/default.vrm" in
      '(finalMetadata, _) ← addVrmPrivacy client protected_metadata vrmUri;
      mret finalMetadata
  | Some _ => mret protected_metadata
  end.

(** The check boxes of the page, [(id, label)] in document order, and the
    ids [updateProtectedAttributes] leaves checked for the level of the
    form. *)
Definition protectedAttributes : list (string * string) :=
  [("attr-agent-name", "Agent Name"); ("attr-secret-code", "Secret Code");
   ("attr-mission", "Mission"); ("attr-origin", "Origin");
   ("attr-accessory", "Accessory"); ("attr-symbols", "Symbols")].

Definition updateProtectedAttributes (level : nat) : list string :=
  (if 1 <=? level then ["attr-agent-name"; "attr-secret-code"] else [])
  ++ (if 2 <=? level then ["attr-mission"; "attr-origin"] else [])
  ++ (if 3 <=? level then ["attr-accessory"; "attr-symbols"] else []).

(** The labels of the boxes with the given ids. *)
Definition labels_of (ids : list string) : list string :=
  omap (fun id => snd <$> List.find (fun box => String.eqb (fst box) id)
                            protectedAttributes) ids.

(** ** Ranges of the masked fields *)

(** Every draw of [Math.random()] lies in [[0, 1)]. *)
Definition unit_draws (w : World) : Prop :=
  forall i, (0 <= Math_random_src w i < 1)%R.

(** [a] is a finite number within [d] of [b]. *)
Definition within (d : R) (a b : number) : Prop :=
  match a, b with
  | Num x, Num y => (Rabs (x - y) <= d)%R
  | _, _ => False
  end.

(** [a] is a finite number in [[lo, hi]]; [a] is a finite number that is at
    least [lo]. *)
Definition in_interval (lo hi : R) (a : number) : Prop :=
  match a with Num x => (lo <= x <= hi)%R | NaN => False end.

Definition at_least (lo : R) (a : number) : Prop :=
  match a with Num x => (lo <= x)%R | NaN => False end.

Definition finite_position (p : PositionData) : Prop :=
  is_finite (pos_x p) /\ is_finite (pos_y p) /\ is_finite (pos_z p).

Definition finite_voice (v : VoiceData) : Prop :=
  Forall is_finite (frequency v) /\ Forall is_finite (amplitude v)
  /\ is_finite (pitch v) /\ is_finite (timbre v).

Definition finite_gesture (g : GestureData) : Prop :=
  is_finite (intensity g) /\ is_finite (speed g).

(** What the clamps of [addVoiceNoise] and [addGestureNoise] establish. *)
Definition voice_in_range (v : VoiceData) : Prop :=
  Forall is_finite (frequency v) /\ Forall (at_least 0) (amplitude v)
  /\ is_finite (pitch v) /\ in_interval 0 1 (timbre v).

Definition gesture_in_range (g : GestureData) : Prop :=
  in_interval 0 1 (intensity g) /\ at_least 0.1 (speed g).

(** A gesture after masking, against the gesture of the input frame. *)
Definition masked_gesture (g g' : GestureData) : Prop :=
  gesture_name g' = gesture_name g /\ jointRotations g' = ∅
  /\ gesture_in_range g'.

(** ** crypto/encryption.ts and crypto/index.ts: passwords and digests

    [pbkdf2Sync] and the digests of [createHash] are library code:
    [sha512 b] is [createHash('sha512').update(b).digest()], [sha256_hex b]
    is [createHash('sha256').update(b).digest('hex')]; several [update]s
    hash the concatenation of their arguments. *)
Class Digests : Type := {
  pbkdf2Sync : string -> bytes -> N -> nat -> string -> bytes;
  sha512 : bytes -> bytes;
  sha256_hex : bytes -> string
}.

Class DigestLengths (dg : Digests) : Prop := {
  pbkdf2Sync_length : forall password salt iterations keylen digest,
    length (pbkdf2Sync password salt iterations keylen digest) = keylen;
  sha512_length : forall b, length (sha512 b) = 64
}.

Section Passwords.

Context {rt : Runtime} {dg : Digests}.

Definition encryptWithPassword (data : bytes) (password : string)
  : Js bytes :=
  salt ← randomBytes 16;
  let key := pbkdf2Sync password salt 100000%N 32 "sha256" in
  encrypted ← encrypt data key;
  mret (salt ++ encrypted).

Definition decryptWithPassword (encryptedData : bytes) (password : string)
  : Js bytes :=
  let salt := subarray encryptedData 0 16 in
  let encrypted := subarray_from encryptedData 16 in
  let key := pbkdf2Sync password salt 100000%N 32 "sha256" in
  decrypt encrypted key.

Definition createSecureKey (entropyInputs : list bytes) : bytes :=
  let combinedEntropy := concat entropyInputs in
  subarray (sha512 combinedEntropy) 0 32.

(** [hashData(data)] and [createDeterministicHash(...inputs)]; an input is
    a string, hashed as its UTF-8 bytes, or a buffer. *)
Definition input_bytes (input : string + bytes) : bytes :=
  match input with inl s => Buffer_from s | inr b => b end.

Definition hashData (data : string + bytes) : string :=
  sha256_hex (input_bytes data).

Definition createDeterministicHash (inputs : list (string + bytes))
  : string :=
  sha256_hex (concat (map input_bytes inputs)).

Definition generateEncryptionKey : Js bytes := randomBytes 32.

End Passwords.

(** ** clients/typescript/utils/index.ts *)
Module Utils.

(** The index arithmetic of [slice]: a negative index counts from the
    end, and both ends are clamped to the length. *)
Definition relative_index (len : nat) (i : Z) : nat :=
  if (i <? 0)%Z then Z.to_nat (Z.max (Z.of_nat len + i) 0)
  else Nat.min (Z.to_nat i) len.

Definition slice {A : Type} (l : list A) (start stop : Z) : list A :=
  let from := relative_index (length l) start in
  let to := relative_index (length l) stop in
  take (to - from) (drop from l).

(** [str.slice(start, stop)] and [str.slice(start)]; a string is the
    sequence of its code units. *)
Definition String_slice (str : string) (start stop : Z) : string :=
  string_of_list_ascii (slice (list_ascii_of_string str) start stop).

Definition String_slice_from (str : string) (start : Z) : string :=
  String_slice str start (Z.of_nat (String.length str)).

(** [maxLength] is an integer. *)
Definition truncateString (str : string) (maxLength : Z) : string :=
  if (Z.of_nat (String.length str) <=? maxLength)%Z then str
  else String.append (String_slice str 0 (maxLength - 3)) "...".

Definition formatPublicKey (key : string) : string :=
  if String.length key <=? 8 then key
  else String.append (String_slice key 0 4)
         (String.append "..." (String_slice_from key (-4))).

(** [a.every((item, index) => p(item, index))]. *)
Fixpoint every_from {A : Type} (p : A -> nat -> bool) (index : nat)
    (a : list A) : bool :=
  match a with
  | [] => true
  | item :: rest => p item index && every_from p (S index) rest
  end.

(** [strict_eq] is [===] on the elements; [b[index]] is [undefined]
    beyond the end of [b]. *)
Definition arraysEqual {A : Type} (strict_eq : A -> A -> bool)
    (a b : list A) : bool :=
  if negb (length a =? length b) then false
  else
    every_from
      (fun item index =>
         match b !! index with
         | Some other => strict_eq item other
         | None => false
         end)
      0 a.

Definition arrayToMap {T K : Type} `{Countable K} (array : list T)
    (keyFn : T -> K) : gmap K T :=
  fold_left (fun map item => <[keyFn item := item]> map) array ∅.

(** [retry(fn, maxRetries, initialDelay, factor)].  [fn] is given by the
    outcome of each of its calls, in order; [maxRetries] is a natural
    number and the delays are reals.  The result is the outcome together
    with the lines [(retries, delay)] of the warnings, one per sleep.
    The loop of the source has no bound of its own: the model takes a
    bound on the number of turns, and [retry] gives it one more than
    [maxRetries]. *)
Fixpoint retry_loop {T : Type} (turns : nat) (fn : nat -> result T)
    (maxRetries retries : nat) (delay factor : R)
  : option (result T * list (nat * R)) :=
  match turns with
  | 0 => None
  | S turns =>
      match fn retries with
      | Ok v => Some (Ok v, [])
      | Throw error =>
          let retries := S retries in
          if maxRetries <=? retries then Some (Throw error, [])
          else
            match retry_loop turns fn maxRetries retries
                    (delay * factor) factor with
            | Some (outcome, warnings) =>
                Some (outcome, (retries, delay) :: warnings)
            | None => None
            end
      end
  end.

Definition retry {T : Type} (fn : nat -> result T)
    (maxRetries : nat) (initialDelay factor : R)
  : option (result T * list (nat * R)) :=
  retry_loop (S maxRetries) fn maxRetries 0 initialDelay factor.

(** The warnings of [k] failed attempts. *)
Definition backoff (initialDelay factor : R) (k : nat) : list (nat * R) :=
  map (fun j => (S j, (initialDelay * factor ^ j)%R)) (seq 0 k).

End Utils.

(** ** A reference for the digests

    Executable stand-ins with the lengths of the real functions, used to
    run the password functions on concrete inputs. *)
Module RefDigests.

Definition stretch (seed : bytes) (n : nat) : bytes :=
  map (fun i =>
         Ref.byte_of_N
           ((N.of_nat i + Byte.to_N (Ref.xor_all seed)
             + N.of_nat (length seed)) mod 256))
      (seq 0 n).

Definition hex_digit (n : N) : ascii :=
  nth (N.to_nat n) (list_ascii_of_string "0123456789abcdef") "0"%char.

Definition hex (b : bytes) : string :=
  string_of_list_ascii
    (flat_map (fun x => [hex_digit (Byte.to_N x / 16);
                         hex_digit (Byte.to_N x mod 16)]) b).

Definition digests : Digests :=
  {| pbkdf2Sync password salt iterations keylen digest :=
       stretch (Buffer_from password ++ salt) keylen;
     sha512 b := stretch b 64;
     sha256_hex b := hex (stretch b 32) |}.

End RefDigests.

(** ** The client: the I/O wrappers, given the outcome of the I/O

    [fetchMetadata] and [saveProtectedMetadata] are wrappers around
    [fetch] and around a file write or a download; the outcome of the I/O
    operation is a parameter. *)
Definition fetchMetadata (this : Client) (metadataUri : string)
    (response : result GlitchGangMetadata) : Js GlitchGangMetadata :=
  console_write
    (console_log (String.append "Fetching metadata from: " metadataUri));;
  match response with
  | Ok metadata => mret metadata
  | Throw error => throw error
  end.

Definition saveProtectedMetadata (this : Client)
    (metadata : GlitchGangMetadata) (outputPath : string)
    (written : result unit) : Js unit :=
  try_catch
    (match written with
     | Ok _ => mret tt
     | Throw error => throw error
     end;;
     console_write
       (console_log
          (String.append "Protected metadata saved to " outputPath)))
    (fun error =>
       console_write (console_error "Failed to save metadata:" error);;
       throw error).

(** [new GlitchGangPrivacyClient(...)] with its library constructors:
    [new Connection(endpoint)] and [new PublicKey(programId)] validate
    their argument and may throw; they run before the key is drawn.  Their
    outcome is a parameter. *)
Definition construct_client (endpoint : string) (keypair : bytes)
    (program : string) (key : option bytes) (library : result unit)
  : Js Client :=
  match library with
  | Ok _ => new_client endpoint keypair program key
  | Throw error => throw error
  end.

(** ** index.ts: [runDemo]

    The demo returns nothing; the model returns what it has saved and
    logged: the final metadata and the addresses of the two views, or
    nothing when the demo failed.  Of a [console.log] with a label and an
    object the label is recorded.  The key pair [Keypair.generate()] makes
    and the outcomes of the library constructors, of [fetch] and of the
    file write are parameters. *)
Definition BANNER : string := "
  _____           _           _     ___  ___  
 |  __ \         (_)         | |    |  \/  |  
 | |__) | __ ___  _  ___  ___| |_   | .  . |  
 |  ___/ '__/ _ \| |/ _ \/ __| __|  | |\/| |  
 | |   | | | (_) | |  __/ (__| |_   | |  | |  
 |_|   |_|  \___/| |\___|\___|\__|  \_|  |_/  
               _/ |                           
              |__/                            
              
  QUANTUM VEIL: Privacy System for Glitch Gang NFTs
".

Definition runDemo `{rt : Runtime} (ownerKeypair : bytes)
    (library : result unit) (response : result GlitchGangMetadata)
    (written : result unit)
  : Js (option (GlitchGangMetadata * positive * positive)) :=
  try_catch
    (console_write (console_log BANNER);;
     console_write (console_log "Glitch Gang Privacy System Demo");;
     client ← construct_client "https://api.devnet.solana.com" ownerKeypair
                "GlchWrapperProgram111111111111111111111111111" None library;
     metadata ← fetchMetadata client
                  "https://example.com/metadata/glitchgang699.json" response;
     console_write (console_log "Original metadata loaded");;
     protectedMetadata ← protectMetadata client metadata PrivacyLevel.Medium;
     console_write (console_log "Privacy protections applied");;
     '(finalMetadata, _) ←
       addVrmPrivacy client protectedMetadata
         "https://models.glitchgang.io/avatars/699.vrm";
     console_write (console_log "VRM privacy settings added");;
     saveProtectedMetadata client finalMetadata
       "protected_glitchgang699.json" written;;
     vrmData ← alloc Demo.frame;
     publicView ← applyVrmPrivacyMask client vrmData None None;
     console_write (console_log "Public VRM view (position):");;
     trustedView ← applyVrmPrivacyMask client vrmData
                     (Some "agent1.glitch.gang") None;
     console_write (console_log "Trusted agent VRM view (position):");;
     console_write (console_log "Demo completed successfully");;
     mret (Some (finalMetadata, publicView, trustedView)))
    (fun error =>
       console_write (console_error "Demo failed:" error);;
       mret None).

(** ** More concrete inputs *)
Module Samples.

(** A bundle with an attribute of every tier. *)
Definition dossier : GlitchGangMetadata :=
  mkMetadata "Glitch Gang #89" "GLITCH" "An agent of the Glitch Gang"
    [mkAttribute "Background" "Cyber Haze";
     mkAttribute "Secret Code" "GLITCH-1";
     mkAttribute "Mission" "Veil";
     mkAttribute "Accessory" "Visor"]
    "https://example.com/images/89.png" (mkProperties []) None.

(** A client whose key has 16 bytes. *)
Definition short_key_client : Client :=
  mkClient "https://api.devnet.solana.com" []
    "GlchWrapperProgram111111111111111111111111111" (take 16 Demo.key)
    None.

Definition model_uri : string :=
  "https://models.glitchgang.io/avatars/699.vrm".

(** [Demo.frame] with entries in its maps, at address 1, and draws that
    alternate between 0 and 0.96875. *)
Definition busy_frame : VrmData :=
  mkVrmData (position Demo.frame) (rotation Demo.frame) (voice Demo.frame)
    [mkGesture "wave" (Num 0.8) (Num 1.2)
       {[ "rightHand" := Demo.identity_rotation ]};
     mkGesture "nod" (Num 0.05) (Num 0.15) ∅]
    {[ "idle" := Num 1 ]} {[ "mood" := "calm" ]}.

Definition world_with_busy_frame : World :=
  mkWorld {[ 1%positive := busy_frame ]}
    (fun i => if Nat.even i then 0%R else 0.96875%R)
    (fun i => Ref.byte_of_N (N.of_nat (7 * i + 3) mod 256)) [] [].

Definition world_of_quarters : World :=
  mkWorld ∅ (fun _ => 0.25%R)
    (fun i => Ref.byte_of_N (N.of_nat (7 * i + 3) mod 256)) [] [].

(** A call that fails twice and then answers 7, and one that always
    fails. *)
Definition flaky (call : nat) : result nat :=
  if call <? 2 then Throw (LoadError "timeout") else Ok 7.

Definition broken (call : nat) : result nat :=
  Throw (LoadError (String.append "attempt "
                      (String (ascii_of_nat (48 + call)) ""))).

End Samples.

(** * Proofs *)

(** ** The policy table *)

(** C3: [getSensitiveAttributes] is the cumulative table, and the set of a
    tier contains the set of the tier below. *)
Theorem getSensitiveAttributes_table :
  getSensitiveAttributes PrivacyLevel.None = []
  /\ getSensitiveAttributes PrivacyLevel.Light = ["Secret Code"; "Agent Name"]
  /\ getSensitiveAttributes PrivacyLevel.Medium
     = getSensitiveAttributes PrivacyLevel.Light ++ ["Mission"; "Origin"]
  /\ getSensitiveAttributes PrivacyLevel.Heavy
     = getSensitiveAttributes PrivacyLevel.Medium ++ ["Accessory"; "Symbols"]
  /\ getSensitiveAttributes PrivacyLevel.Complete
     = getSensitiveAttributes PrivacyLevel.Medium ++ ["Accessory"; "Symbols"]
  /\ (forall level, getSensitiveAttributes level = Spec.classify level)
  /\ (forall level,
        PrivacyLevel.to_nat (PrivacyLevel.below level)
        = PrivacyLevel.to_nat level - 1
        /\ incl (getSensitiveAttributes (PrivacyLevel.below level))
             (getSensitiveAttributes level)).
Proof.
  do 5 (split; [reflexivity|]).
  split; intros level; [now destruct level|].
  split; [now destruct level|].
  destruct level; simpl; intros s Hs; simpl in *; tauto.
Qed.

Lemma sort_attribute_fold (sens : list string) (l priv pub : list Attribute) :
  fold_left (sort_attribute sens) l (priv, pub)
  = (priv ++ List.filter (fun a => includes sens (trait_type a)) l,
     pub ++ List.filter (fun a => negb (includes sens (trait_type a))) l).
Proof.
  revert priv pub.
  induction l as [|a l IH]; intros priv pub; simpl.
  - now rewrite !app_nil_r.
  - unfold sort_attribute at 2; simpl.
    destruct (includes sens (trait_type a)); simpl;
      rewrite IH, <- app_assoc; reflexivity.
Qed.

Lemma sort_attributes (level : PrivacyLevel.t) (l : list Attribute) :
  fold_left (sort_attribute (getSensitiveAttributes level)) l ([], [])
  = (private_part level l, public_part level l).
Proof. apply sort_attribute_fold. Qed.

Lemma public_part_all (level : PrivacyLevel.t) (l : list Attribute) :
  private_part level l = [] -> public_part level l = l.
Proof.
  unfold private_part, public_part.
  induction l as [|a l IH]; simpl; [reflexivity|].
  destruct (is_sensitive level a); simpl; [discriminate|].
  intros H; now rewrite IH.
Qed.

Lemma with_attributes_same (m : GlitchGangMetadata) :
  with_attributes m (attributes m) = m.
Proof. now destruct m. Qed.

(** ** Running methods *)

#[global] Arguments next_bytes : simpl never.
#[global] Arguments wire : simpl never.
#[global] Arguments logged : simpl never.
#[global] Arguments called : simpl never.
#[global] Arguments drawn : simpl never.
#[global] Arguments bytes_drawn : simpl never.
#[global] Arguments stored : simpl never.
#[global] Arguments flip_bit : simpl never.

Ltac run_js :=
  unfold mbind, Js_bind, mret, Js_ret, throw, try_catch, console_write,
    record_call; cbn.

(** ** [protectMetadata] without private attributes *)

Lemma protectMetadata_nothing_private `{rt : Runtime} (this : Client)
    (metadata : GlitchGangMetadata) (level : PrivacyLevel.t) (w : World) :
  private_part level (attributes metadata) = [] ->
  protectMetadata this metadata level w
  = (Ok metadata,
     logged (console_log (String.append "Applying privacy level: "
                            (PrivacyLevel.name level))) w).
Proof.
  intros Hnone.
  unfold protectMetadata.
  rewrite sort_attributes, Hnone, (public_part_all _ _ Hnone).
  run_js. now rewrite with_attributes_same.
Qed.

Lemma bind_ok {A B : Type} (m : Js A) (k : A -> Js B) (w w' : World) (a : A) :
  m w = (Ok a, w') -> (m ≫= k) w = k a w'.
Proof. intros H. unfold mbind, Js_bind. now rewrite H. Qed.

(** ** The wire record of [encrypt] and [decrypt] *)

Lemma next_bytes_length (n : nat) (w : World) : length (next_bytes n w) = n.
Proof. unfold next_bytes. now rewrite length_map, length_seq. Qed.

Lemma subarray_head (a b : bytes) (n : nat) :
  length a = n -> subarray (a ++ b) 0 n = a.
Proof.
  intros <-. unfold subarray. rewrite Nat.sub_0_r.
  apply take_app_length.
Qed.

Lemma subarray_middle (a b c : bytes) (n m : nat) :
  length a = n -> length b = m - n -> subarray (a ++ b ++ c) n m = b.
Proof.
  intros <- Hb. unfold subarray.
  rewrite drop_app_length, <- Hb. apply take_app_length.
Qed.

Lemma subarray_from_tail (a b c : bytes) (n : nat) :
  length a + length b = n -> subarray_from (a ++ b ++ c) n = c.
Proof.
  intros <-. unfold subarray_from.
  rewrite app_assoc, <- length_app. apply drop_app_length.
Qed.

Section Crypto.

Context {rt : Runtime}.

Lemma encrypt_ok (data key : bytes) (w : World) :
  length key = 32 ->
  encrypt data key w
  = (Ok (wire (next_bytes 16 w)
           (aead_encrypt aes_256_gcm key (next_bytes 16 w) data)),
     called (createCipheriv aes_256_gcm) (bytes_drawn 16 w)).
Proof.
  intros Hkey. unfold encrypt, seal_with, check_cipher_args, randomBytes.
  run_js. rewrite Hkey, next_bytes_length. cbn.
  now destruct (aead_encrypt _ _ _ _).
Qed.

Lemma decrypt_wire `{!AeadCorrect rt} (data key iv : bytes) (w : World) :
  length key = 32 -> length iv = 16 ->
  decrypt (wire iv (aead_encrypt aes_256_gcm key iv data)) key w
  = (Ok data, called (createDecipheriv aes_256_gcm) w).
Proof.
  intros Hkey Hiv. unfold decrypt, wire.
  pose proof (aead_tag_length aes_256_gcm key iv data) as Htag.
  rewrite subarray_head, (subarray_middle _ _ _ 16 32), subarray_from_tail
    by (try rewrite Htag; lia).
  unfold open_with, check_cipher_args. run_js.
  rewrite Hkey, Hiv, Htag. cbn.
  now rewrite aead_decrypt_encrypt.
Qed.

(** Sealing and opening with the same key gives the data back. *)
Lemma decrypt_encrypt `{!AeadCorrect rt} (data key : bytes) (w w' : World) :
  length key = 32 ->
  exists sealed w1,
    encrypt data key w = (Ok sealed, w1)
    /\ 32 <= length sealed
    /\ decrypt sealed key w'
       = (Ok data, called (createDecipheriv aes_256_gcm) w').
Proof.
  intros Hkey. eexists _, _. split; [now apply encrypt_ok|]. split.
  - unfold wire. rewrite !length_app, next_bytes_length, aead_tag_length. lia.
  - apply decrypt_wire; [assumption|apply next_bytes_length].
Qed.

End Crypto.

(** ** Protecting and revealing a bundle *)

Lemma parts_permutation (level : PrivacyLevel.t) (l : list Attribute) :
  Permutation (public_part level l ++ private_part level l) l.
Proof.
  unfold public_part, private_part.
  induction l as [|a l IH]; simpl; [constructor|].
  destruct (is_sensitive level a); simpl.
  - symmetry. apply Permutation_cons_app. now symmetry.
  - now constructor.
Qed.

Lemma Buffer_toString_from (s : string) : Buffer_toString (Buffer_from s) = s.
Proof. apply string_of_list_byte_of_string. Qed.

Section Bundles.

Context {rt : Runtime}.

Lemma base64_encode_truthy `{!CodecCorrect rt} (b : bytes) :
  b <> [] -> truthy (Some (base64_encode b)) = true.
Proof.
  intros Hb. simpl. destruct (String.eqb_spec (base64_encode b) "") as [E|];
    [|reflexivity].
  exfalso. apply Hb.
  now rewrite <- (base64_decode_encode b), E, base64_decode_empty.
Qed.

(** What [protectMetadata] returns when the tier protects something. *)
Lemma protectMetadata_sealing (this : Client) (metadata : GlitchGangMetadata)
    (level : PrivacyLevel.t) (w : World) :
  length (encryptionKey this) = 32 ->
  private_part level (attributes metadata) <> [] ->
  let line := console_log (String.append "Applying privacy level: "
                             (PrivacyLevel.name level)) in
  let payload :=
    Buffer_from (JSON_stringify (private_part level (attributes metadata))) in
  let iv := next_bytes 16 (logged line w) in
  protectMetadata this metadata level w
  = (Ok (with_privateData
           (with_attributes metadata
              (public_part level (attributes metadata)))
           (mkPrivateData (PrivacyLevel.name level)
              (Some (base64_encode
                       (wire iv (aead_encrypt aes_256_gcm
                                   (encryptionKey this) iv payload))))
              None None)),
     called (createCipheriv aes_256_gcm) (bytes_drawn 16 (logged line w))).
Proof.
  intros Hkey Hsome line payload iv.
  unfold protectMetadata. rewrite sort_attributes.
  destruct (private_part level (attributes metadata)) as [|a l] eqn:E;
    [contradiction|].
  run_js. rewrite (encrypt_ok _ _ _ Hkey). reflexivity.
Qed.

(** What [decryptMetadata] returns on a bundle sealed by this client. *)
Lemma decryptMetadata_sealed `{!AeadCorrect rt} `{!CodecCorrect rt}
    (this : Client) (m : GlitchGangMetadata) (tier : string)
    (iv : bytes) (private : list Attribute) (w : World) :
  length (encryptionKey this) = 32 -> length iv = 16 ->
  let sealed :=
    wire iv (aead_encrypt aes_256_gcm (encryptionKey this) iv
               (Buffer_from (JSON_stringify private))) in
  let protected :=
    with_privateData m
      (mkPrivateData tier (Some (base64_encode sealed)) None None) in
  decryptMetadata this protected w
  = (Ok (with_attributes protected (attributes m ++ private)),
     called (createDecipheriv aes_256_gcm) w).
Proof.
  intros Hkey Hiv sealed protected.
  unfold decryptMetadata.
  change (privateData protected ≫= encryptedAttributes)
    with (Some (base64_encode sealed)).
  rewrite base64_encode_truthy.
  2:{ unfold sealed, wire. destruct iv; [discriminate|]. discriminate. }
  cbn [negb default from_option Datatypes.id]. rewrite base64_decode_encode.
  run_js. unfold sealed. rewrite (decrypt_wire _ _ _ _ Hkey Hiv).
  unfold JSON_parse_or_throw.
  rewrite Buffer_toString_from, JSON_parse_stringify. reflexivity.
Qed.

(** C1: revealing what was protected, with the same key, gives the public
    attributes in their original order followed by the private ones, and
    so the attributes of the bundle up to order.  The bundle is an
    attribute bundle: it carries no sealed record of an earlier
    protection (or the tier protects at least one of its attributes, in
    which case an earlier record is replaced); the key has 256 bits. *)
Theorem reveal_protect_roundtrip `{!AeadCorrect rt} `{!CodecCorrect rt}
    (this : Client) (B : GlitchGangMetadata) (level : PrivacyLevel.t)
    (w w' : World) :
  length (encryptionKey this) = 32 ->
  truthy (sealed_record B) = false
  \/ private_part level (attributes B) <> [] ->
  exists (P R : GlitchGangMetadata) (w1 w2 : World),
    protectMetadata this B level w = (Ok P, w1)
    /\ decryptMetadata this P w' = (Ok R, w2)
    /\ attributes P = public_part level (attributes B)
    /\ attributes R
       = public_part level (attributes B)
         ++ private_part level (attributes B)
    /\ Permutation (attributes R) (attributes B)
    /\ (forall a, In a (attributes R) <-> In a (attributes B)).
Proof.
  intros Hkey Hbundle.
  assert (Hperm := parts_permutation level (attributes B)).
  assert (Hset : forall l : list Attribute,
             Permutation l (attributes B) ->
             forall a, In a l <-> In a (attributes B)).
  { intros l Hl a. split; apply Permutation_in; [|symmetry]; exact Hl. }
  destruct (private_part level (attributes B)) as [|a0 l0] eqn:Hpriv.
  - destruct Hbundle as [Hfresh|]; [|contradiction].
    exists B, B. eexists _, _.
    split; [now apply protectMetadata_nothing_private|].
    split.
    { unfold decryptMetadata. fold (sealed_record B). rewrite Hfresh.
      reflexivity. }
    rewrite (public_part_all _ _ Hpriv) in *. rewrite app_nil_r in *.
    repeat split; auto using Permutation_refl; now apply Hset.
  - eexists _, _, _, _.
    split.
    { apply protectMetadata_sealing; [assumption|]. now rewrite Hpriv. }
    split.
    { apply decryptMetadata_sealed; [assumption|apply next_bytes_length]. }
    cbn [attributes with_attributes with_privateData].
    rewrite Hpriv. repeat split; auto; now apply Hset.
Qed.

(** C2, as the code has it: when opening the sealed record throws, for
    whatever reason, [decryptMetadata] catches the error, writes it to
    the console and returns the protected bundle it was given; no error
    reaches the caller. *)
Theorem decryptMetadata_swallows_rejection (this : Client)
    (P : GlitchGangMetadata) (e : JsError) (w w1 : World) :
  truthy (sealed_record P) = true ->
  decrypt (base64_decode (default "" (sealed_record P)))
    (encryptionKey this) w = (Throw e, w1) ->
  decryptMetadata this P w
  = (Ok P, logged (console_error "Failed to decrypt metadata:" e) w1).
Proof.
  intros Hsealed Hreject.
  unfold decryptMetadata. fold (sealed_record P). rewrite Hsealed.
  run_js. now rewrite Hreject.
Qed.

(** C8, as the code has it: when the tier protects none of the
    attributes, [protectMetadata] attaches nothing, neither a sealed
    record nor a tier marker: the bundle it returns equals its input in
    every field (the attributes unmodified and in their order, the
    private-data section as it was, absent if it was absent), and no
    random bytes are drawn and no cipher is created. *)
Theorem protectMetadata_attaches_nothing (this : Client)
    (B : GlitchGangMetadata) (level : PrivacyLevel.t) (w : World) :
  private_part level (attributes B) = [] ->
  exists (P : GlitchGangMetadata) (w1 : World),
    protectMetadata this B level w = (Ok P, w1)
    /\ P = B
    /\ attributes P = attributes B
    /\ privateData P = privateData B
    /\ randomBytes_src w1 = randomBytes_src w
    /\ cipherCalls w1 = cipherCalls w.
Proof.
  intros Hnone. exists B. eexists. split;
    [now apply protectMetadata_nothing_private|].
  repeat split.
Qed.

End Bundles.

(** ** The reference runtime meets the contracts *)

Ltac unfold_ref_runtime :=
  cbn [aead_decrypt aead_encrypt Ref.runtime Ref.aead_encrypt fst snd] in *.

Module RefFacts.

Import Ref.

Lemma in_all_bytes (b : byte) : In b all_bytes.
Proof.
  unfold all_bytes. apply in_map_iff.
  exists (N.to_nat (Byte.to_N b)). split.
  - unfold byte_of_N. now rewrite N2Nat.id, Byte.of_to_N.
  - apply in_seq. pose proof (Byte.to_N_bounded b). lia.
Qed.

Lemma for_all_bytes (P : byte -> bool) :
  forallb P all_bytes = true -> forall b, P b = true.
Proof. intros H b. exact (proj1 (forallb_forall P all_bytes) H b (in_all_bytes b)). Qed.

Lemma for_all_bytes2 (P : byte -> byte -> bool) :
  forallb (fun a => forallb (P a) all_bytes) all_bytes = true ->
  forall a b, P a b = true.
Proof.
  intros H a b.
  exact (for_all_bytes (P a) (for_all_bytes _ H a) b).
Qed.

Lemma xor_byte_cancel (d p : byte) : xor_byte (xor_byte d p) p = d.
Proof.
  apply Byte.byte_dec_bl.
  apply (for_all_bytes2 (fun d p => Byte.eqb (xor_byte (xor_byte d p) p) d)).
  vm_compute. reflexivity.
Qed.

(** *** The stream cipher *)

Lemma xor_stream_cancel (a : Algorithm) (key iv data : bytes) (i : nat) :
  xor_stream a key iv i (xor_stream a key iv i data) = data.
Proof.
  revert i. induction data as [|d data IH]; intros i; simpl; [reflexivity|].
  now rewrite xor_byte_cancel, IH.
Qed.

Lemma tag_of_length (a : Algorithm) (key iv ciphertext : bytes) :
  length (tag_of a key iv ciphertext) = 16.
Proof. reflexivity. Qed.

#[global] Instance runtime_aead_correct : AeadCorrect runtime.
Proof.
  split; intros a key iv data.
  - reflexivity.
  - unfold_ref_runtime. unfold aead_decrypt.
    rewrite firstn_all, bool_decide_eq_true_2 by reflexivity.
    now rewrite xor_stream_cancel.
Qed.

#[global] Instance runtime_without_chacha_aead_correct :
  AeadCorrect runtime_without_chacha.
Proof. split; [apply (aead_tag_length (rt:=runtime))|apply (aead_decrypt_encrypt (rt:=runtime))]. Qed.

(** *** base64 *)

#[local] Ltac Zify.zify_post_hook ::= Z.div_mod_to_equations.

Lemma sextet_of_char_of_sextet (s : N) :
  (s <= 64)%N -> sextet_of_char (char_of_sextet s) = s.
Proof.
  intros Hs.
  assert (H : forallb (fun n => N.eqb (sextet_of_char (char_of_sextet (N.of_nat n)))
                                 (N.of_nat n)) (seq 0 65) = true)
    by (vm_compute; reflexivity).
  rewrite forallb_forall in H.
  specialize (H (N.to_nat s)). rewrite N2Nat.id in H.
  apply N.eqb_eq, H, in_seq. lia.
Qed.

Ltac mod_facts a k :=
  pose proof (N.mod_lt a k ltac:(lia));
  pose proof (N.Div0.div_mod a k).

Ltac not_padding :=
  repeat match goal with
    | |- context [(64 <=? ?x)%N] =>
        replace (64 <=? x)%N with false by (symmetry; apply N.leb_gt; lia)
    end.

Lemma decode_encode_groups (n : nat) (bs : list N) :
  length bs <= n -> Forall (fun b => (b < 256)%N) bs ->
  decode_groups (map sextet_of_char (map char_of_sextet (encode_groups bs)))
  = bs.
Proof.
  revert bs. induction n as [|n IH]; intros bs Hlen Hbs.
  { destruct bs; [reflexivity|simpl in Hlen; lia]. }
  destruct bs as [|a [|b [|c rest]]]; [reflexivity| | |].
  - apply Forall_cons_1 in Hbs as [Ha _].
    mod_facts a 4%N.
    cbn [encode_groups map].
    rewrite !sextet_of_char_of_sextet by lia.
    cbn [decode_groups]. not_padding.
    cbn. f_equal. lia.
  - apply Forall_cons_1 in Hbs as [Ha Hbs].
    apply Forall_cons_1 in Hbs as [Hb _].
    mod_facts a 4%N. mod_facts b 16%N.
    mod_facts (a mod 4 * 16 + b / 16)%N 16%N.
    cbn [encode_groups map].
    rewrite !sextet_of_char_of_sextet by lia.
    cbn [decode_groups]. not_padding.
    cbn. f_equal; [lia|]. f_equal. lia.
  - apply Forall_cons_1 in Hbs as [Ha Hbs].
    apply Forall_cons_1 in Hbs as [Hb Hbs].
    apply Forall_cons_1 in Hbs as [Hc Hbs].
    mod_facts a 4%N. mod_facts b 16%N. mod_facts c 64%N.
    mod_facts (a mod 4 * 16 + b / 16)%N 16%N.
    mod_facts (b mod 16 * 4 + c / 64)%N 4%N.
    cbn [encode_groups map].
    rewrite !sextet_of_char_of_sextet by lia.
    cbn [decode_groups]. not_padding.
    cbn [orb]. rewrite IH by (simpl in Hlen; auto; lia).
    f_equal; [lia|]. f_equal; [lia|]. f_equal. lia.
Qed.

Lemma ref_base64_decode_encode (b : bytes) : base64_decode (base64_encode b) = b.
Proof.
  unfold base64_decode, base64_encode.
  rewrite list_ascii_of_string_of_list_ascii.
  rewrite (decode_encode_groups (length (map Byte.to_N b))); [|lia|].
  - rewrite map_map. rewrite <- (map_id b) at 2. apply map_ext.
    intros x. unfold byte_of_N. now rewrite Byte.of_to_N.
  - apply List.Forall_forall. intros x [y [<- _]]%in_map_iff.
    pose proof (Byte.to_N_bounded y). lia.
Qed.

(** *** JSON *)

Lemma append_cons (x : ascii) (a b : string) :
  String.append (String x a) b = String x (String.append a b).
Proof. reflexivity. Qed.

Lemma append_nil (b : string) : String.append EmptyString b = b.
Proof. reflexivity. Qed.

Lemma append_assoc (a b c : string) :
  String.append (String.append a b) c = String.append a (String.append b c).
Proof.
  induction a as [|x a IH]; [reflexivity|].
  rewrite !append_cons. f_equal. exact IH.
Qed.

Lemma append_length (a b : string) :
  String.length (String.append a b) = String.length a + String.length b.
Proof.
  induction a as [|x a IH]; [reflexivity|].
  rewrite append_cons. cbn [String.length]. now rewrite IH.
Qed.

Ltac push_append := rewrite ?append_assoc, ?append_cons, ?append_nil.

Lemma read_string_escape (s rest : string) :
  read_string (String.append (escape s) (String dquote rest))
  = Some (s, rest).
Proof.
  induction s as [|c s IH]; [reflexivity|].
  cbn [escape].
  destruct (Ascii.eqb_spec c dquote) as [->|Hq].
  { cbn [orb]. push_append. cbn [read_string].
    change (Ascii.eqb backslash dquote) with false.
    change (Ascii.eqb backslash backslash) with true.
    cbn iota. now rewrite IH. }
  destruct (Ascii.eqb_spec c backslash) as [->|Hb].
  { cbn [orb]. push_append. cbn [read_string].
    change (Ascii.eqb backslash dquote) with false.
    change (Ascii.eqb backslash backslash) with true.
    cbn iota. now rewrite IH. }
  cbn [orb]. push_append. cbn [read_string].
  destruct (Ascii.eqb_spec c dquote); [contradiction|].
  destruct (Ascii.eqb_spec c backslash); [contradiction|].
  now rewrite IH.
Qed.

Lemma expect_append (p s : string) : expect p (String.append p s) = Some s.
Proof.
  induction p as [|c p IH]; [now destruct s|].
  rewrite append_cons. cbn [expect]. now rewrite Ascii.eqb_refl.
Qed.

Lemma read_attribute_print (a : Attribute) (rest : string) :
  read_attribute (String.append (print_attribute a) rest) = Some (a, rest).
Proof.
  unfold read_attribute.
  set (p1 := String.append "{" _).
  set (p2 := String.append "," _).
  assert (E : String.append (print_attribute a) rest
              = String.append p1
                  (String.append (escape (trait_type a))
                     (String dquote
                        (String.append p2
                           (String.append (escape (value a))
                              (String dquote (String.append "}" rest))))))).
  { unfold p1, p2, print_attribute, quote. repeat push_append. reflexivity. }
  rewrite E, expect_append. cbn [mbind option_bind].
  rewrite read_string_escape. cbn [mbind option_bind].
  rewrite expect_append. cbn [mbind option_bind].
  rewrite read_string_escape. cbn [mbind option_bind].
  rewrite expect_append. cbn [mbind option_bind].
  now destruct a.
Qed.

Lemma read_tail_print (l : list Attribute) (fuel : nat) :
  length l < fuel -> read_tail fuel (print_tail l) = Some l.
Proof.
  revert fuel. induction l as [|a l IH]; intros [|fuel] Hfuel;
    try (simpl in Hfuel; lia); [reflexivity|].
  cbn [print_tail]. push_append. cbn [read_tail].
  rewrite read_attribute_print. cbn [mbind option_bind].
  rewrite IH by (simpl in Hfuel; lia). reflexivity.
Qed.

Lemma print_tail_length (l : list Attribute) :
  length l < String.length (print_tail l).
Proof.
  induction l as [|a l IH]; [cbn; lia|].
  cbn [print_tail]. rewrite !append_length. cbn [length String.length]. lia.
Qed.

Lemma print_attribute_head (a : Attribute) :
  exists s, print_attribute a = String "{" s.
Proof. unfold print_attribute. push_append. eauto. Qed.

Lemma ref_JSON_parse_stringify (l : list Attribute) :
  JSON_parse (JSON_stringify l) = Some l.
Proof.
  destruct l as [|a l]; [reflexivity|].
  unfold JSON_stringify. push_append.
  pose proof (print_tail_length l) as Hlen.
  destruct (print_attribute_head a) as [s Hs].
  remember (String.append (print_attribute a) (print_tail l)) as body eqn:Hb.
  assert (Hbody : exists s', body = String "{" s').
  { subst body. rewrite Hs, append_cons. eauto. }
  destruct Hbody as [s' Hs'].
  assert (Hfuel : length l < String.length (String "[" body)).
  { subst body. cbn [String.length]. rewrite append_length. lia. }
  unfold JSON_parse. rewrite Hs'. cbn iota. rewrite <- Hs'.
  rewrite Hb at 1. rewrite read_attribute_print. cbn [mbind option_bind].
  now rewrite read_tail_print.
Qed.

#[global] Instance runtime_codec_correct : CodecCorrect runtime.
Proof.
  split.
  - apply ref_base64_decode_encode.
  - reflexivity.
  - apply ref_JSON_parse_stringify.
Qed.

End RefFacts.

(** ** The bundles of the scenario *)

Lemma reveal_protect_roundtrip_witness :
  length (encryptionKey Demo.client) = 32
  /\ truthy (sealed_record Demo.metadata) = false
  /\ exists (P R : GlitchGangMetadata) (w1 w2 : World),
       protectMetadata (rt:=Ref.runtime) Demo.client Demo.metadata
         PrivacyLevel.Light Demo.world = (Ok P, w1)
       /\ decryptMetadata (rt:=Ref.runtime) Demo.client P Demo.world
          = (Ok R, w2)
       /\ attributes P
          = public_part PrivacyLevel.Light (attributes Demo.metadata)
       /\ attributes R
          = public_part PrivacyLevel.Light (attributes Demo.metadata)
            ++ private_part PrivacyLevel.Light (attributes Demo.metadata)
       /\ Permutation (attributes R) (attributes Demo.metadata)
       /\ (forall a, In a (attributes R) <-> In a (attributes Demo.metadata)).
Proof.
  split; [reflexivity|]. split; [reflexivity|].
  apply (reveal_protect_roundtrip (rt:=Ref.runtime) Demo.client Demo.metadata
           PrivacyLevel.Light Demo.world Demo.world).
  - reflexivity.
  - left. reflexivity.
Defined.

(** C2, as stated, fails.  [Demo.protected_metadata] is what
    [protectMetadata] made of the bundle of the scenario.  In
    [Demo.tampered_metadata] one bit of the tag of its sealed record is
    flipped; [Demo.intruder] holds another key.  In both cases the cipher
    rejects the record, yet [decryptMetadata] returns normally, with the
    protected bundle. *)
Lemma decryptMetadata_hides_authentication_failure :
  fst (protectMetadata (rt:=Ref.runtime) Demo.client Demo.metadata
         PrivacyLevel.Light Demo.world) = Ok Demo.protected_metadata
  /\ fst (decrypt (rt:=Ref.runtime)
            (Ref.base64_decode
               (default "" (sealed_record Demo.tampered_metadata)))
            (encryptionKey Demo.client) Demo.world)
     = Throw AuthenticationError
  /\ fst (decryptMetadata (rt:=Ref.runtime) Demo.client
            Demo.tampered_metadata Demo.world)
     = Ok Demo.tampered_metadata
  /\ fst (decryptMetadata (rt:=Ref.runtime) Demo.client
            Demo.tampered_metadata Demo.world)
     <> Throw AuthenticationError
  /\ fst (decrypt (rt:=Ref.runtime)
            (Ref.base64_decode
               (default "" (sealed_record Demo.protected_metadata)))
            (encryptionKey Demo.intruder) Demo.world)
     = Throw AuthenticationError
  /\ fst (decryptMetadata (rt:=Ref.runtime) Demo.intruder
            Demo.protected_metadata Demo.world)
     = Ok Demo.protected_metadata.
Proof.
  split; [vm_compute; reflexivity|].
  split; [vm_compute; reflexivity|].
  split; [vm_compute; reflexivity|].
  split; [vm_compute; discriminate|].
  split; vm_compute; reflexivity.
Qed.

Lemma decryptMetadata_swallows_rejection_witness :
  truthy (sealed_record Demo.tampered_metadata) = true
  /\ decryptMetadata (rt:=Ref.runtime) Demo.client Demo.tampered_metadata
       Demo.world
     = (Ok Demo.tampered_metadata,
        logged (console_error "Failed to decrypt metadata:" AuthenticationError)
          (called (createDecipheriv aes_256_gcm) Demo.world)).
Proof.
  split; [vm_compute; reflexivity|].
  apply (decryptMetadata_swallows_rejection (rt:=Ref.runtime) Demo.client
           Demo.tampered_metadata AuthenticationError Demo.world
           (called (createDecipheriv aes_256_gcm) Demo.world)).
  - vm_compute; reflexivity.
  - vm_compute; reflexivity.
Defined.

(** C8, as stated, fails: at tier Light nothing of [Demo.public_metadata]
    is private, and the bundle that [protectMetadata] returns has no
    private-data section at all, hence no tier marker. *)
Lemma protectMetadata_leaves_no_tier_marker :
  private_part PrivacyLevel.Light (attributes Demo.public_metadata) = []
  /\ exists P : GlitchGangMetadata,
       fst (protectMetadata (rt:=Ref.runtime) Demo.client
              Demo.public_metadata PrivacyLevel.Light Demo.world) = Ok P
       /\ attributes P = attributes Demo.public_metadata
       /\ privateData P = None.
Proof.
  split; [reflexivity|].
  exists Demo.public_metadata. repeat split.
Qed.

Lemma protectMetadata_attaches_nothing_witness :
  private_part PrivacyLevel.Light (attributes Demo.public_metadata) = []
  /\ exists (P : GlitchGangMetadata) (w1 : World),
       protectMetadata (rt:=Ref.runtime) Demo.client Demo.public_metadata
         PrivacyLevel.Light Demo.world = (Ok P, w1)
       /\ P = Demo.public_metadata
       /\ attributes P = attributes Demo.public_metadata
       /\ privateData P = privateData Demo.public_metadata
       /\ randomBytes_src w1 = randomBytes_src Demo.world
       /\ cipherCalls w1 = cipherCalls Demo.world.
Proof.
  split; [reflexivity|].
  apply (protectMetadata_attaches_nothing (rt:=Ref.runtime) Demo.client
           Demo.public_metadata PrivacyLevel.Light Demo.world).
  reflexivity.
Defined.

(** Outside the bundles of the round-trip theorem: a bundle that is already
    protected keeps its sealed record when it is protected again at a tier
    that finds nothing private in it, and revealing it opens that earlier
    record. *)
Lemma reveal_of_a_bundle_protected_twice :
  fst (protectMetadata (rt:=Ref.runtime) Demo.client Demo.protected_metadata
         PrivacyLevel.None Demo.world) = Ok Demo.protected_metadata
  /\ (exists R,
        fst (decryptMetadata (rt:=Ref.runtime) Demo.client
               Demo.protected_metadata Demo.world) = Ok R
        /\ attributes R = attributes Demo.metadata).
Proof.
  split; [vm_compute; reflexivity|].
  eexists. split; [vm_compute; reflexivity|reflexivity].
Qed.

(** ** Flipped bits and the wire record *)

Lemma flip_at_length (j k : nat) (l : bytes) :
  length (flip_at j k l) = length l.
Proof.
  revert j. induction l as [|b l IH]; intros [|j]; simpl; auto.
Qed.

Lemma flip_bit_length (i : nat) (l : bytes) :
  length (flip_bit i l) = length l.
Proof. apply flip_at_length. Qed.

Lemma flip_at_app_l (j k : nat) (a b : bytes) :
  j < length a -> flip_at j k (a ++ b) = flip_at j k a ++ b.
Proof.
  revert j. induction a as [|x a IH]; intros [|j] Hj; simpl in *;
    try lia; [reflexivity|].
  now rewrite IH by lia.
Qed.

Lemma flip_at_app_r (j k : nat) (a b : bytes) :
  length a <= j -> flip_at j k (a ++ b) = a ++ flip_at (j - length a) k b.
Proof.
  revert j. induction a as [|x a IH]; intros j Hj; simpl in *.
  - now rewrite Nat.sub_0_r.
  - destruct j as [|j]; [lia|]. simpl. now rewrite IH by lia.
Qed.

Lemma flip_bit_app_l (i : nat) (a b : bytes) :
  i < 8 * length a -> flip_bit i (a ++ b) = flip_bit i a ++ b.
Proof.
  intros Hi. unfold flip_bit. apply flip_at_app_l.
  apply Nat.Div0.div_lt_upper_bound. lia.
Qed.

Lemma flip_bit_app_r (i : nat) (a b : bytes) :
  8 * length a <= i ->
  flip_bit i (a ++ b) = a ++ flip_bit (i - 8 * length a) b.
Proof.
  intros Hi. unfold flip_bit.
  assert (Hq : (i - 8 * length a) / 8 = i / 8 - length a).
  { replace i with ((i - 8 * length a) + length a * 8) at 2 by lia.
    rewrite Nat.div_add by lia. lia. }
  assert (Hr : (i - 8 * length a) mod 8 = i mod 8).
  { replace i with ((i - 8 * length a) + length a * 8) at 2 by lia.
    now rewrite Nat.Div0.mod_add. }
  rewrite Hq, Hr. apply flip_at_app_r.
  apply Nat.div_le_lower_bound; lia.
Qed.

(** A flipped bit of the record [[iv][tag][ciphertext]] falls in exactly one
    of its three fields, and the other two are unchanged. *)
Lemma flip_bit_wire (i : nat) (iv tag ciphertext : bytes) :
  i < 8 * length (iv ++ tag ++ ciphertext) ->
  (i < 8 * length iv
   /\ flip_bit i (iv ++ tag ++ ciphertext)
      = flip_bit i iv ++ tag ++ ciphertext)
  \/ (i - 8 * length iv < 8 * length tag
      /\ flip_bit i (iv ++ tag ++ ciphertext)
         = iv ++ flip_bit (i - 8 * length iv) tag ++ ciphertext)
  \/ (i - 8 * length iv - 8 * length tag < 8 * length ciphertext
      /\ flip_bit i (iv ++ tag ++ ciphertext)
         = iv ++ tag
           ++ flip_bit (i - 8 * length iv - 8 * length tag) ciphertext).
Proof.
  rewrite !length_app. intros Hi.
  destruct (Nat.lt_ge_cases i (8 * length iv)) as [H1|H1].
  { left. split; [assumption|]. now apply flip_bit_app_l. }
  right. rewrite (flip_bit_app_r _ _ _ H1).
  destruct (Nat.lt_ge_cases (i - 8 * length iv) (8 * length tag)) as [H2|H2].
  { left. split; [assumption|]. now rewrite flip_bit_app_l. }
  right. split; [lia|]. now rewrite flip_bit_app_r.
Qed.

Section Integrity.

Context {rt : Runtime}.


End Integrity.

(** ** The reference cipher rejects flipped bits *)

Module RefIntegrity.

Import Ref RefFacts.

Lemma for_all_bits (P : nat -> bool) :
  forallb P (seq 0 8) = true -> forall k, k < 8 -> P k = true.
Proof.
  intros H k Hk. apply (proj1 (forallb_forall P (seq 0 8)) H).
  apply in_seq. lia.
Qed.

Lemma flip_byte_changes (k : nat) (b : byte) :
  k < 8 -> flip_byte k b <> b.
Proof.
  intros Hk.
  assert (H : negb (Byte.eqb (flip_byte k b) b) = true).
  { revert b. apply for_all_bytes. revert k Hk. apply for_all_bits.
    vm_compute. reflexivity. }
  intros E. rewrite E, (Byte.byte_dec_lb eq_refl) in H. discriminate.
Qed.

Lemma xor_flip_l (k : nat) (b c : byte) :
  k < 8 -> xor_byte (flip_byte k b) c = flip_byte k (xor_byte b c).
Proof.
  intros Hk. apply Byte.byte_dec_bl. revert b c.
  apply (for_all_bytes2
           (fun b c => Byte.eqb (xor_byte (flip_byte k b) c)
                         (flip_byte k (xor_byte b c)))).
  revert k Hk. apply for_all_bits. vm_compute. reflexivity.
Qed.

Lemma xor_flip_r (k : nat) (b c : byte) :
  k < 8 -> xor_byte b (flip_byte k c) = flip_byte k (xor_byte b c).
Proof.
  intros Hk. apply Byte.byte_dec_bl. revert b c.
  apply (for_all_bytes2
           (fun b c => Byte.eqb (xor_byte b (flip_byte k c))
                         (flip_byte k (xor_byte b c)))).
  revert k Hk. apply for_all_bits. vm_compute. reflexivity.
Qed.

Lemma xor_all_flip_at (j k : nat) (l : bytes) :
  j < length l -> k < 8 ->
  xor_all (flip_at j k l) = flip_byte k (xor_all l).
Proof.
  intros Hj Hk. revert j Hj.
  induction l as [|b l IH]; intros j Hj; simpl in Hj; [lia|].
  destruct j as [|j]; cbn [flip_at xor_all fold_right].
  - now apply xor_flip_l.
  - fold (xor_all (flip_at j k l)). fold (xor_all l).
    rewrite IH by lia. now apply xor_flip_r.
Qed.

Lemma flip_at_changes (j k : nat) (l : bytes) :
  j < length l -> k < 8 -> flip_at j k l <> l.
Proof.
  intros Hj Hk E. apply (flip_byte_changes k (xor_all l) Hk).
  now rewrite <- xor_all_flip_at with (j := j), E.
Qed.

Lemma bit_position (i n : nat) : i < 8 * n -> i / 8 < n /\ i mod 8 < 8.
Proof.
  intros Hi. split.
  - apply Nat.Div0.div_lt_upper_bound. lia.
  - apply Nat.mod_upper_bound. lia.
Qed.

(** A flipped bit in the authenticated bytes changes the tag. *)
Lemma tag_of_flip (a : Algorithm) (key iv iv' ciphertext ciphertext' : bytes)
    (j k : nat) :
  j < length (iv ++ ciphertext) -> k < 8 ->
  iv' ++ ciphertext' = flip_at j k (iv ++ ciphertext) ->
  tag_of a key iv' ciphertext' <> tag_of a key iv ciphertext.
Proof.
  intros Hj Hk E H. unfold tag_of in H.
  injection H as H. rewrite E, xor_all_flip_at, xor_flip_r in H by assumption.
  exact (flip_byte_changes k _ Hk H).
Qed.

Lemma aead_decrypt_wrong_tag (a : Algorithm) (key iv tag ciphertext : bytes) :
  length tag = 16 -> tag <> tag_of a key iv ciphertext ->
  aead_decrypt a key iv tag ciphertext = None.
Proof.
  intros Hlen Hneq. unfold aead_decrypt.
  rewrite Hlen, <- (tag_of_length a key iv ciphertext), firstn_all.
  now rewrite bool_decide_eq_false_2.
Qed.

#[global] Instance runtime_tamper_evident : AeadTamperEvident runtime.
Proof.
  split; intros a key iv data i Hi; unfold_ref_runtime.
  - destruct (bit_position _ _ Hi) as [Hj Hk].
    apply aead_decrypt_wrong_tag; [reflexivity|].
    apply not_eq_sym.
    apply (tag_of_flip a key iv _ _ _ (i / 8) (i mod 8));
      [rewrite length_app; lia|assumption|].
    symmetry. now apply flip_at_app_l.
  - destruct (bit_position _ _ Hi) as [Hj Hk].
    apply aead_decrypt_wrong_tag; [apply flip_bit_length|].
    now apply flip_at_changes.
  - destruct (bit_position _ _ Hi) as [Hj Hk].
    apply aead_decrypt_wrong_tag; [reflexivity|].
    apply not_eq_sym.
    apply (tag_of_flip a key iv _ _ _ (length iv + i / 8) (i mod 8));
      [rewrite length_app; lia|assumption|].
    rewrite flip_at_app_r by lia. unfold flip_bit. do 2 f_equal. lia.
Qed.

End RefIntegrity.


(** ** [decryptChaCha20] *)

Section ChaCha.

Context {rt : Runtime}.

Lemma open_with_world (a : Algorithm) (key iv authTag ciphertext : bytes)
    (w : World) :
  snd (open_with a key iv authTag ciphertext w)
  = called (createDecipheriv a) w.
Proof.
  unfold open_with, check_cipher_args. run_js.
  destruct (negb (supported a)); [reflexivity|].
  destruct (negb (length key =? 32)); [reflexivity|].
  destruct (negb (iv_length_ok a (length iv))); [reflexivity|]. cbn.
  destruct (auth_tag_length_ok a (length authTag)); [|reflexivity]. cbn.
  now destruct (aead_decrypt a key iv authTag ciphertext).
Qed.

(** C6, as the code has it: the record carries no cipher identifier.
    [decryptChaCha20] first tries ChaCha20-Poly1305 on the layout
    [[nonce 12][tag 16][ciphertext]]; when that attempt throws, whatever
    the reason, it writes a warning and returns what AES-256-GCM
    [decrypt] makes of the same bytes, so that two deciphers are
    created, one per algorithm. *)
Theorem decryptChaCha20_tries_then_retries (record key : bytes)
    (w : World) :
  length key = 32 ->
  let w1 := called (createDecipheriv chacha20_poly1305) w in
  let w2 :=
    logged
      (console_warn
         "Failed to decrypt with ChaCha20-Poly1305, trying AES-GCM") w1 in
  match fst (decryptChaCha20_try record key w) with
  | Ok plaintext => decryptChaCha20 record key w = (Ok plaintext, w1)
  | Throw _ =>
      decryptChaCha20 record key w = decrypt record key w2
      /\ cipherCalls (snd (decryptChaCha20 record key w))
         = cipherCalls w
           ++ [createDecipheriv chacha20_poly1305;
               createDecipheriv aes_256_gcm]
  end.
Proof.
  intros Hkey w1 w2.
  assert (Hw : snd (decryptChaCha20_try record key w) = w1)
    by apply open_with_world.
  unfold decryptChaCha20. rewrite Hkey. cbn [Nat.eqb negb].
  unfold try_catch.
  destruct (decryptChaCha20_try record key w) as [[p|e] w'];
    cbn [fst snd] in *; subst w'; [reflexivity|].
  run_js. split; [reflexivity|].
  unfold decrypt. rewrite open_with_world.
  unfold w2, w1, called, logged. cbn. now rewrite <- app_assoc.
Qed.

End ChaCha.

Lemma decryptChaCha20_tries_then_retries_witness :
  length Demo.key = 32
  /\ match fst (decryptChaCha20_try (rt:=Ref.runtime)
                  (Buffer_from "0123456789abcdef") Demo.key Demo.world) with
     | Ok plaintext =>
         decryptChaCha20 (rt:=Ref.runtime) (Buffer_from "0123456789abcdef")
           Demo.key Demo.world
         = (Ok plaintext,
            called (createDecipheriv chacha20_poly1305) Demo.world)
     | Throw _ =>
         decryptChaCha20 (rt:=Ref.runtime) (Buffer_from "0123456789abcdef")
           Demo.key Demo.world
         = decrypt (rt:=Ref.runtime) (Buffer_from "0123456789abcdef")
             Demo.key
             (logged
                (console_warn
                   "Failed to decrypt with ChaCha20-Poly1305, trying AES-GCM")
                (called (createDecipheriv chacha20_poly1305) Demo.world))
         /\ cipherCalls
              (snd (decryptChaCha20 (rt:=Ref.runtime)
                      (Buffer_from "0123456789abcdef") Demo.key Demo.world))
            = cipherCalls Demo.world
              ++ [createDecipheriv chacha20_poly1305;
                  createDecipheriv aes_256_gcm]
     end.
Proof.
  split; [reflexivity|].
  apply (decryptChaCha20_tries_then_retries (rt:=Ref.runtime)
           (Buffer_from "0123456789abcdef") Demo.key Demo.world).
  reflexivity.
Defined.

(** C6, as stated, fails.  On a runtime without ChaCha20-Poly1305,
    [encryptChaCha20] seals with AES-256-GCM; [decryptChaCha20] then opens
    that record by trying ChaCha20-Poly1305, catching the failure and
    retrying with AES-256-GCM.  A 16-byte record shows the same on a
    runtime with both ciphers: both attempts are made, and the error that
    surfaces is the one of the second. *)
Lemma decryptChaCha20_retries_with_another_cipher :
  (exists (record : bytes) (w1 : World),
     encryptChaCha20 (rt:=Ref.runtime_without_chacha) Demo.payload Demo.key
       Demo.world = (Ok record, w1)
     /\ fst (decryptChaCha20_try (rt:=Ref.runtime_without_chacha) record
               Demo.key Demo.world) = Throw UnknownCipher
     /\ fst (decryptChaCha20 (rt:=Ref.runtime_without_chacha) record Demo.key
               Demo.world) = Ok Demo.payload
     /\ cipherCalls
          (snd (decryptChaCha20 (rt:=Ref.runtime_without_chacha) record
                  Demo.key Demo.world))
        = [createDecipheriv chacha20_poly1305; createDecipheriv aes_256_gcm])
  /\ fst (decryptChaCha20_try (rt:=Ref.runtime)
            (Buffer_from "0123456789abcdef") Demo.key Demo.world)
     = Throw (InvalidAuthTagLength 4)
  /\ fst (decryptChaCha20 (rt:=Ref.runtime) (Buffer_from "0123456789abcdef")
            Demo.key Demo.world)
     = Throw (InvalidAuthTagLength 0)
  /\ cipherCalls
       (snd (decryptChaCha20 (rt:=Ref.runtime)
               (Buffer_from "0123456789abcdef") Demo.key Demo.world))
     = [createDecipheriv chacha20_poly1305; createDecipheriv aes_256_gcm].
Proof.
  split.
  - eexists _, _. split; [vm_compute; reflexivity|].
    repeat split; vm_compute; reflexivity.
  - repeat split; vm_compute; reflexivity.
Qed.

(** ** Behavioural frames: who gets the frame itself *)

(** C10: as long as no VRM model is loaded, [applyVrmPrivacyMask] returns
    the address it was given, for every viewer; the store is unchanged and
    [Math.random] is not called.  A new client has no model, and a failed
    [loadVrmModel] gives none. *)
Theorem applyVrmPrivacyMask_without_model (this : Client)
    (vrmData : positive) (viewerId nftMint : option string) (w : World) :
  vrmModel this = None ->
  applyVrmPrivacyMask this vrmData viewerId nftMint w
  = (Ok vrmData, logged (mask_line viewerId) w)
  /\ heap (logged (mask_line viewerId) w) = heap w
  /\ Math_random_src (logged (mask_line viewerId) w) = Math_random_src w
  /\ (forall endpoint keypair program key w0,
        exists c w1,
          new_client endpoint keypair program key w0 = (Ok c, w1)
          /\ vrmModel c = None)
  /\ (forall uri error w0,
        exists e w1,
          loadVrmModel this uri (Failed error) w0 = (Throw e, w1)).
Proof.
  intros Hnone. split; [|split; [reflexivity|split; [reflexivity|split]]].
  - unfold applyVrmPrivacyMask. rewrite Hnone. reflexivity.
  - intros endpoint keypair program [k|] w0; eexists _, _; split; reflexivity.
  - intros uri error w0. eexists _, _. reflexivity.
Qed.

Lemma applyVrmPrivacyMask_without_model_witness :
  vrmModel Demo.client = None
  /\ applyVrmPrivacyMask Demo.client 1%positive None None Demo.world_with_frame
     = (Ok 1%positive, logged (mask_line None) Demo.world_with_frame).
Proof.
  split; [reflexivity|].
  apply (applyVrmPrivacyMask_without_model Demo.client 1%positive None None
           Demo.world_with_frame).
  reflexivity.
Defined.

Lemma trusted_viewer_is_named (viewerId : string) (nftMint : option string) :
  isViewerTrusted viewerId nftMint = true -> truthy (Some viewerId) = true.
Proof.
  unfold isViewerTrusted, includes. cbn [existsb]. rewrite orb_false_r.
  intros [H|H]%orb_prop; apply String.eqb_eq in H; subst; reflexivity.
Qed.

(** C4, as the code has it: a trusted viewer gets back the very address
    that was passed in; no copy is made, the store is unchanged, and so the
    frame read through the result is the input frame in every field.  The
    method takes no privacy tier. *)
Theorem applyVrmPrivacyMask_trusted (this : Client) (vrmData : positive)
    (viewerId : string) (nftMint : option string) (w : World) :
  isViewerTrusted viewerId nftMint = true ->
  applyVrmPrivacyMask this vrmData (Some viewerId) nftMint w
  = (Ok vrmData, logged (mask_line (Some viewerId)) w)
  /\ heap (logged (mask_line (Some viewerId)) w) = heap w
  /\ forall frame,
       heap w !! vrmData = Some frame ->
       heap (logged (mask_line (Some viewerId)) w) !! vrmData = Some frame.
Proof.
  intros Htrusted.
  pose proof (trusted_viewer_is_named _ _ Htrusted) as Hviewer.
  split; [|split; [reflexivity|auto]].
  unfold applyVrmPrivacyMask, mask_line.
  destruct (vrmModel this); [|reflexivity].
  rewrite Hviewer. cbn [default from_option Datatypes.id].
  rewrite Htrusted. reflexivity.
Qed.

Lemma applyVrmPrivacyMask_trusted_witness :
  isViewerTrusted "agent1.glitch.gang" None = true
  /\ applyVrmPrivacyMask Demo.client_with_model 1%positive
       (Some "agent1.glitch.gang") None Demo.world_with_frame
     = (Ok 1%positive,
        logged (mask_line (Some "agent1.glitch.gang")) Demo.world_with_frame)
  /\ heap (logged (mask_line (Some "agent1.glitch.gang"))
             Demo.world_with_frame)
     = heap Demo.world_with_frame
  /\ forall frame,
       heap Demo.world_with_frame !! 1%positive = Some frame ->
       heap (logged (mask_line (Some "agent1.glitch.gang"))
               Demo.world_with_frame) !! 1%positive = Some frame.
Proof.
  split; [reflexivity|].
  apply (applyVrmPrivacyMask_trusted Demo.client_with_model 1%positive
           "agent1.glitch.gang" None Demo.world_with_frame); reflexivity.
Defined.

(** C4, as stated, fails: for the trusted viewer of the demo the result is
    address 1, the address of the input frame, and nothing was allocated:
    the returned value aliases the input. *)
Lemma applyVrmPrivacyMask_trusted_aliases_input :
  heap Demo.world_with_frame !! 1%positive = Some Demo.frame
  /\ fst (applyVrmPrivacyMask Demo.client_with_model 1%positive
            (Some "agent1.glitch.gang") None Demo.world_with_frame)
     = Ok 1%positive
  /\ dom (heap (snd (applyVrmPrivacyMask Demo.client_with_model 1%positive
                       (Some "agent1.glitch.gang") None
                       Demo.world_with_frame)))
     = dom (heap Demo.world_with_frame).
Proof. repeat split. Qed.

(** ** Behavioural frames: the noise pass *)

Lemma after_draws_drawn (n : nat) (w : World) : after_draws n w (drawn n w).
Proof. repeat split. Qed.

Lemma after_draws_zero (w : World) : after_draws 0 w w.
Proof. repeat split. Qed.

Lemma after_draws_trans (n m : nat) (w w1 w2 : World) :
  after_draws n w w1 -> after_draws m w1 w2 -> after_draws (n + m) w w2.
Proof.
  intros (H1 & H2 & H3 & H4 & H5) (K1 & K2 & K3 & K4 & K5).
  repeat split; try congruence.
  intros i. now rewrite K5, H5, Nat.add_assoc.
Qed.

Lemma after_draws_count (n m : nat) (w w' : World) :
  n = m -> after_draws n w w' -> after_draws m w w'.
Proof. now intros <-. Qed.

Lemma addPositionNoise_run (p : PositionData) (i : number) (w : World) :
  addPositionNoise p i w
  = (Ok (mkPosition
           (pos_x p + (Num (Math_random_src w 0) - Num 0.5) * Num 2 * i)
           (pos_y p + (Num (Math_random_src w 1) - Num 0.5) * Num 2 * i)
           (pos_z p + (Num (Math_random_src w 2) - Num 0.5) * Num 2 * i))%num,
     drawn 3 w).
Proof. reflexivity. Qed.

Lemma addRotationNoise_run (q : RotationData) (i : number) (w : World) :
  addRotationNoise q i w
  = (Ok (quat_normalize
           (quat_mul q
              (noise_quaternion i (Num (Math_random_src w 0))
                 (Num (Math_random_src w 1)) (Num (Math_random_src w 2))
                 (Num (Math_random_src w 3))))),
     drawn 4 w).
Proof. reflexivity. Qed.

Lemma addGestureNoise_run (g : GestureData) (i : number) (w : World) :
  exists g', addGestureNoise g i w = (Ok g', drawn 2 w).
Proof. eexists. reflexivity. Qed.

Lemma for_each_draws {A B : Type} (body : A -> Js B) (k : nat) :
  (forall x w, exists y w', body x w = (Ok y, w') /\ after_draws k w w') ->
  forall xs w,
    exists ys w',
      for_each body xs w = (Ok ys, w')
      /\ after_draws (k * length xs) w w'
      /\ length ys = length xs.
Proof.
  intros Hbody xs. induction xs as [|x xs IH]; intros w.
  - exists [], w. rewrite Nat.mul_0_r. repeat split.
  - destruct (Hbody x w) as (y & w1 & Hy & Hw1).
    destruct (IH w1) as (ys & w2 & Hys & Hw2 & Hlen).
    exists (y :: ys), w2. cbn [for_each].
    rewrite (bind_ok _ _ _ _ _ Hy), (bind_ok _ _ _ _ _ Hys).
    split; [reflexivity|]. split; [|simpl; now rewrite Hlen].
    eapply after_draws_count; [|eapply after_draws_trans; eassumption].
    simpl. lia.
Qed.

Lemma addVoiceNoise_run (v : VoiceData) (i : number) (w : World) :
  exists v' w',
    addVoiceNoise v i w = (Ok v', w')
    /\ after_draws (length (frequency v) + length (amplitude v) + 2) w w'.
Proof.
  unfold addVoiceNoise.
  destruct (for_each_draws
              (fun f => r ← Math_random;
                        mret (f + (r - Num 0.5) * Num 2 * i * Num 100)%num) 1
              (fun x w0 => ex_intro _ _ (ex_intro _ _
                 (conj eq_refl (after_draws_drawn 1 w0))))
              (frequency v) w) as (fs & w1 & Hfs & Hw1 & _).
  destruct (for_each_draws
              (fun a => d ← centred_noise i;
                        mret (Math_max (Num 0) (a + d)%num)) 1
              (fun x w0 => ex_intro _ _ (ex_intro _ _
                 (conj eq_refl (after_draws_drawn 1 w0))))
              (amplitude v) w1) as (amps & w2 & Hamps & Hw2 & _).
  eexists _, _.
  rewrite (bind_ok _ _ _ _ _ Hfs), (bind_ok _ _ _ _ _ Hamps).
  split; [reflexivity|].
  eapply after_draws_count;
    [|eapply after_draws_trans;
      [eapply after_draws_trans; eassumption|apply (after_draws_drawn 2)]].
  lia.
Qed.

Lemma noise_pass_run (ip ir iv ig : number) (m : VrmData) (w : World) :
  exists m' w',
    noise_pass ip ir iv ig m w = (Ok m', w')
    /\ after_draws (draws_of m) w w'
    /\ position m' = (mkPosition
         (pos_x (position m)
          + (Num (Math_random_src w 0) - Num 0.5) * Num 2 * ip)
         (pos_y (position m)
          + (Num (Math_random_src w 1) - Num 0.5) * Num 2 * ip)
         (pos_z (position m)
          + (Num (Math_random_src w 2) - Num 0.5) * Num 2 * ip))%num
    /\ rotation m' = quat_normalize
         (quat_mul (rotation m)
            (noise_quaternion ir (Num (Math_random_src w 3))
               (Num (Math_random_src w 4)) (Num (Math_random_src w 5))
               (Num (Math_random_src w 6))))
    /\ length (gestures m') = length (gestures m)
    /\ animations m' = animations m
    /\ customData m' = customData m
    /\ forall (C : Type) (k : VrmData -> Js C),
         (p ← addPositionNoise (position m) ip;
          r ← addRotationNoise (rotation m) ir;
          v ← match voice m with
              | Some v => v' ← addVoiceNoise v iv; mret (Some v')
              | None => mret None
              end;
          gs ← for_each (fun g => addGestureNoise g ig) (gestures m);
          k (mkVrmData p r v gs (animations m) (customData m))) w
         = k m' w'.
Proof.
  unfold noise_pass, draws_of.
  assert (Hvoice : exists v' w',
             (match voice m with
              | Some v => v' ← addVoiceNoise v iv; mret (Some v')
              | None => mret None
              end) (drawn 4 (drawn 3 w)) = (Ok v', w')
             /\ after_draws
                  match voice m with
                  | Some v => length (frequency v) + length (amplitude v) + 2
                  | None => 0
                  end (drawn 4 (drawn 3 w)) w').
  { destruct (voice m) as [v|].
    - destruct (addVoiceNoise_run v iv (drawn 4 (drawn 3 w)))
        as (v' & w' & Hv & Hw).
      exists (Some v'), w'. now rewrite (bind_ok _ _ _ _ _ Hv).
    - eexists _, _. split; [reflexivity|apply after_draws_zero]. }
  destruct Hvoice as (v' & w1 & Hv & Hw1).
  destruct (for_each_draws (fun g => addGestureNoise g ig) 2
              (fun g w0 => match addGestureNoise_run g ig w0 with
                           | ex_intro _ g' Hg =>
                               ex_intro _ g' (ex_intro _ _
                                 (conj Hg (after_draws_drawn 2 w0)))
                           end)
              (gestures m) w1) as (gs & w2 & Hgs & Hw2 & Hlen).
  eexists _, w2.
  rewrite (bind_ok _ _ _ _ _ (addPositionNoise_run _ _ _)).
  rewrite (bind_ok _ _ _ _ _ (addRotationNoise_run _ _ _)).
  rewrite (bind_ok _ _ _ _ _ Hv), (bind_ok _ _ _ _ _ Hgs).
  split; [reflexivity|]. split.
  { eapply after_draws_count;
      [|eapply after_draws_trans;
        [eapply after_draws_trans;
         [apply (after_draws_trans 3 4 w (drawn 3 w) (drawn 4 (drawn 3 w)));
          apply after_draws_drawn|eassumption]|eassumption]].
    lia. }
  do 5 (split; [first [reflexivity|assumption]|]).
  intros C k.
  rewrite (bind_ok _ _ _ _ _ (addPositionNoise_run _ _ _)).
  rewrite (bind_ok _ _ _ _ _ (addRotationNoise_run _ _ _)).
  now rewrite (bind_ok _ _ _ _ _ Hv), (bind_ok _ _ _ _ _ Hgs).
Qed.

Lemma draws_of_clone (m : VrmData) : draws_of (JSON_clone m) = draws_of m.
Proof.
  unfold draws_of, JSON_clone. cbn [voice gestures].
  destruct (voice m) as [v|]; cbn [option_map clone_voice frequency amplitude];
    now rewrite ?length_map.
Qed.

(** The levels of the demo page are the table of the specification. *)
Lemma updateVrmPrivacy_levels_table (level : PrivacyLevel.t) :
  updateVrmPrivacy_levels (PrivacyLevel.to_nat level) false
  = Spec.intensity_table level.
Proof. now destruct level. Qed.

(** What [applyVrmPrivacyMask] does for a viewer that is not trusted, once a
    model is loaded: a clone is allocated at a fresh address, the noise pass
    runs on it and its result is stored at that address. *)
Lemma applyVrmPrivacyMask_untrusted_run (this : Client)
    (vrmData : positive) (viewerId nftMint : option string)
    (frame : VrmData) (w : World) :
  is_Some (vrmModel this) ->
  (if truthy viewerId then isViewerTrusted (default "" viewerId) nftMint
   else false) = false ->
  heap w !! vrmData = Some frame ->
  let masked := fresh (dom (heap w)) in
  let w1 :=
    stored masked (JSON_clone frame) (logged (mask_line viewerId) w) in
  exists (m' : VrmData) (w2 : World),
    noise_pass (Num 0.5) (Num 0.3) (Num 0.7) (Num 0.4) (JSON_clone frame) w1
    = (Ok m', w2)
    /\ applyVrmPrivacyMask this vrmData viewerId nftMint w
       = (Ok masked, stored masked m' w2).
Proof.
  intros [vrm Hmodel] Huntrusted Hframe masked w1.
  set (w0 := logged (mask_line viewerId) w).
  destruct (noise_pass_run (Num 0.5) (Num 0.3) (Num 0.7) (Num 0.4)
              (JSON_clone frame) w1)
    as (m' & w2 & Hrun & _ & _ & _ & _ & _ & _ & Hcont).
  exists m', w2. split; [exact Hrun|].
  unfold applyVrmPrivacyMask. rewrite Hmodel, Huntrusted.
  rewrite (bind_ok _ _ w w0 tt) by reflexivity.
  rewrite (bind_ok _ _ w0 w0 frame)
    by (unfold load, w0, logged; cbn [heap]; now rewrite Hframe).
  rewrite (bind_ok _ _ w0 w1 masked) by reflexivity.
  rewrite (bind_ok _ _ w1 w1 (JSON_clone frame))
    by (unfold load, w1, stored; cbn [heap];
        now rewrite lookup_insert_eq).
  exact (Hcont _ (fun m => store masked m;; mret masked)).
Qed.




(** ** Rotation noise *)

Lemma Math_sqrt_nonneg (x : R) :
  (0 <= x)%R -> Math_sqrt (Num x) = Num (sqrt x).
Proof.
  intros Hx. unfold Math_sqrt. destruct (Rlt_dec x 0); [lra|reflexivity].
Qed.

Lemma ndiv_nonzero (x y : R) : y <> 0%R -> (Num x / Num y)%num = Num (x / y).
Proof.
  intros Hy. unfold ndiv. destruct (Req_dec_T y 0); [contradiction|reflexivity].
Qed.

Lemma ndiv_by_zero (a : number) : (a / Num 0)%num = NaN.
Proof.
  destruct a as [x|]; [|reflexivity].
  unfold ndiv. destruct (Req_dec_T 0 0); [reflexivity|contradiction].
Qed.

Lemma nmul_NaN_r (a : number) : (a * NaN)%num = NaN.
Proof. now destruct a. Qed.

Lemma nadd_NaN_r (a : number) : (a + NaN)%num = NaN.
Proof. now destruct a. Qed.

Lemma nsub_NaN_r (a : number) : (a - NaN)%num = NaN.
Proof. now destruct a. Qed.

(** A zero axis: the three axis draws are all [0.5]. *)
Lemma noise_quaternion_zero_axis (intensity r0 : number) :
  exists c,
    noise_quaternion intensity r0 (Num 0.5) (Num 0.5) (Num 0.5)
    = mkRotation NaN NaN NaN c.
Proof.
  unfold noise_quaternion. cbn [nsub nmul nadd nsquare lift2].
  replace (0.5 * 2 - 1)%R with 0%R by lra.
  replace (0 * 0 + 0 * 0 + 0 * 0)%R with 0%R by lra.
  rewrite Math_sqrt_nonneg by lra. rewrite sqrt_0, ndiv_by_zero.
  eexists. reflexivity.
Qed.

Lemma quat_mul_NaN_axis (q : RotationData) (c : number) :
  quat_normalize (quat_mul q (mkRotation NaN NaN NaN c))
  = mkRotation NaN NaN NaN NaN.
Proof.
  unfold quat_normalize, quat_mag, quat_mul.
  cbn [rot_x rot_y rot_z rot_w].
  rewrite !nmul_NaN_r, ?nadd_NaN_r, ?nsub_NaN_r.
  cbn [nadd nsub lift2]. rewrite ?nadd_NaN_r, ?nsub_NaN_r.
  cbn [nsquare nmul nadd lift2 Math_sqrt ndiv]. reflexivity.
Qed.

Lemma addRotationNoise_zero_axis (q : RotationData) (intensity : number)
    (w : World) :
  Math_random_src w 1 = 0.5%R ->
  Math_random_src w 2 = 0.5%R ->
  Math_random_src w 3 = 0.5%R ->
  addRotationNoise q intensity w
  = (Ok (mkRotation NaN NaN NaN NaN), drawn 4 w).
Proof.
  intros H1 H2 H3. rewrite addRotationNoise_run, H1, H2, H3.
  destruct (noise_quaternion_zero_axis intensity (Num (Math_random_src w 0)))
    as [c ->].
  now rewrite quat_mul_NaN_axis.
Qed.

(** C9 at its failing input: the rotation is the unit quaternion
    (0, 0, 0, 1) and [Math.random()] returns 0.5; the axis of the noise is
    then the zero vector, its normalisation divides 0 by 0, and every
    component of the masked rotation is [NaN]: it has no norm. *)
Theorem addRotationNoise_not_a_rotation :
  addRotationNoise Demo.identity_rotation (Num 0.3) Demo.world_of_halves
  = (Ok (mkRotation NaN NaN NaN NaN), drawn 4 Demo.world_of_halves)
  /\ ~ is_finite (rot_w (mkRotation NaN NaN NaN NaN)).
Proof.
  split; [now apply addRotationNoise_zero_axis|].
  intros [].
Qed.

(** The norm of a quaternion product is the product of the norms. *)
Lemma norm2_product (x y z w px py pz pw : R) :
  norm2 (w * px + x * pw + y * pz - z * py)
        (w * py - x * pz + y * pw + z * px)
        (w * pz + x * py - y * px + z * pw)
        (w * pw - x * px - y * py - z * pz)
  = (norm2 x y z w * norm2 px py pz pw)%R.
Proof. unfold norm2. ring. Qed.

(** With an axis that is not the zero vector the noise quaternion is a unit
    quaternion. *)
Lemma noise_quaternion_unit (intensity r0 r1 r2 r3 : R) :
  let a1 := (r1 * 2 - 1)%R in
  let a2 := (r2 * 2 - 1)%R in
  let a3 := (r3 * 2 - 1)%R in
  (a1 * a1 + a2 * a2 + a3 * a3)%R <> 0%R ->
  exists px py pz pw,
    noise_quaternion (Num intensity) (Num r0) (Num r1) (Num r2) (Num r3)
    = mkRotation (Num px) (Num py) (Num pz) (Num pw)
    /\ norm2 px py pz pw = 1%R.
Proof.
  intros a1 a2 a3 Haxis.
  assert (HS : (0 < a1 * a1 + a2 * a2 + a3 * a3)%R).
  { assert (0 <= a1 * a1 + a2 * a2 + a3 * a3)%R by nra. lra. }
  assert (Hmag : (0 < sqrt (a1 * a1 + a2 * a2 + a3 * a3))%R)
    by now apply sqrt_lt_R0.
  assert (Hsq : (sqrt (a1 * a1 + a2 * a2 + a3 * a3)
                 * sqrt (a1 * a1 + a2 * a2 + a3 * a3)
                 = a1 * a1 + a2 * a2 + a3 * a3)%R) by (apply sqrt_sqrt; lra).
  set (h := (intensity * PI * r0 / 2)%R).
  exists (a1 / sqrt (a1 * a1 + a2 * a2 + a3 * a3) * sin h)%R,
         (a2 / sqrt (a1 * a1 + a2 * a2 + a3 * a3) * sin h)%R,
         (a3 / sqrt (a1 * a1 + a2 * a2 + a3 * a3) * sin h)%R, (cos h).
  split.
  - unfold noise_quaternion, Math_PI.
    cbn [nsub nmul nadd nsquare lift2 lift1 Math_sin Math_cos].
    fold a1 a2 a3.
    rewrite Math_sqrt_nonneg by lra.
    rewrite !ndiv_nonzero by lra.
    cbn [nmul lift2 lift1 Math_sin Math_cos]. fold h. reflexivity.
  - unfold norm2.
    remember (sqrt (a1 * a1 + a2 * a2 + a3 * a3)) as m eqn:Hm.
    replace (a1 / m * sin h * (a1 / m * sin h)
             + a2 / m * sin h * (a2 / m * sin h)
             + a3 / m * sin h * (a3 / m * sin h)
             + cos h * cos h)%R
      with ((a1 * a1 + a2 * a2 + a3 * a3) / (m * m) * (sin h * sin h)
            + cos h * cos h)%R
      by (field; lra).
    rewrite <- Hsq. replace (m * m / (m * m))%R with 1%R by (field; lra).
    pose proof (sin2_cos2 h) as Hsc. unfold Rsqr in Hsc. lra.
Qed.

(** The run of [addRotationNoise] that the specification describes: a unit
    rotation and an axis that is not the zero vector.  The result is the
    product [original * perturbation], in this order, with a unit
    perturbation, and its norm is 1. *)
Lemma addRotationNoise_unit (x y z w intensity : R) (wd : World) :
  norm2 x y z w = 1%R ->
  let a1 := (Math_random_src wd 1 * 2 - 1)%R in
  let a2 := (Math_random_src wd 2 * 2 - 1)%R in
  let a3 := (Math_random_src wd 3 * 2 - 1)%R in
  (a1 * a1 + a2 * a2 + a3 * a3)%R <> 0%R ->
  exists px py pz pw,
    noise_quaternion (Num intensity) (Num (Math_random_src wd 0))
      (Num (Math_random_src wd 1)) (Num (Math_random_src wd 2))
      (Num (Math_random_src wd 3))
    = mkRotation (Num px) (Num py) (Num pz) (Num pw)
    /\ norm2 px py pz pw = 1%R
    /\ let x' := (w * px + x * pw + y * pz - z * py)%R in
       let y' := (w * py - x * pz + y * pw + z * px)%R in
       let z' := (w * pz + x * py - y * px + z * pw)%R in
       let w' := (w * pw - x * px - y * py - z * pz)%R in
       addRotationNoise (mkRotation (Num x) (Num y) (Num z) (Num w))
         (Num intensity) wd
       = (Ok (mkRotation (Num x') (Num y') (Num z') (Num w')), drawn 4 wd)
       /\ norm2 x' y' z' w' = 1%R
       /\ (Rabs (sqrt (norm2 x' y' z' w') - 1) <= 1 / 1000000)%R.
Proof.
  intros Hq a1 a2 a3 Haxis.
  destruct (noise_quaternion_unit intensity (Math_random_src wd 0)
              (Math_random_src wd 1) (Math_random_src wd 2)
              (Math_random_src wd 3) Haxis)
    as (px & py & pz & pw & Hp & Hnorm).
  exists px, py, pz, pw. split; [exact Hp|]. split; [exact Hnorm|].
  intros x' y' z' w'.
  assert (Hprod : norm2 x' y' z' w' = 1%R).
  { unfold x', y', z', w'. rewrite norm2_product, Hq, Hnorm. lra. }
  split; [|split; [exact Hprod|]].
  - rewrite addRotationNoise_run, Hp.
    unfold quat_normalize, quat_mag, quat_mul.
    cbn [rot_x rot_y rot_z rot_w nsub nmul nadd nsquare lift2].
    fold x' y' z' w'. fold (norm2 x' y' z' w'). rewrite Hprod.
    rewrite Math_sqrt_nonneg by lra. rewrite sqrt_1.
    rewrite !ndiv_nonzero by lra.
    now rewrite !Rdiv_1_r.
  - rewrite Hprod, sqrt_1. replace (1 - 1)%R with 0%R by lra.
    rewrite Rabs_R0. lra.
Qed.

(** * Further properties of the code *)

(** ** Bundles: tiers, keys and repeated protection *)

Lemma includes_In (xs : list string) (s : string) :
  includes xs s = true <-> In s xs.
Proof.
  unfold includes. rewrite existsb_exists. split.
  - intros (x & Hin & Heq). apply String.eqb_eq in Heq. now subst.
  - intros Hin. exists s. split; [assumption|apply String.eqb_refl].
Qed.

Lemma sensitive_monotone (l l' : PrivacyLevel.t) (a : Attribute) :
  PrivacyLevel.to_nat l <= PrivacyLevel.to_nat l' ->
  is_sensitive l a = true -> is_sensitive l' a = true.
Proof.
  unfold is_sensitive. rewrite !includes_In.
  destruct l, l'; simpl; intros Hle Hin; try lia; tauto.
Qed.

Lemma public_part_not_sensitive (l : PrivacyLevel.t) (attrs : list Attribute) :
  Forall (fun a => is_sensitive l a = false) (public_part l attrs).
Proof.
  apply List.Forall_forall. intros a Ha.
  apply List.filter_In in Ha. destruct Ha as [_ Ha].
  now destruct (is_sensitive l a).
Qed.

Lemma private_part_nil (l : PrivacyLevel.t) (attrs : list Attribute) :
  Forall (fun a => is_sensitive l a = false) attrs ->
  private_part l attrs = [].
Proof.
  unfold private_part. induction 1 as [|a attrs Ha _ IH]; simpl;
    [reflexivity|]. now rewrite Ha.
Qed.

(** Nothing of what a tier leaves public is private at a tier below it. *)
Lemma private_of_public (l l' : PrivacyLevel.t) (attrs : list Attribute) :
  PrivacyLevel.to_nat l' <= PrivacyLevel.to_nat l ->
  private_part l' (public_part l attrs) = [].
Proof.
  intros Hle. apply private_part_nil.
  eapply Forall_impl; [apply public_part_not_sensitive|].
  intros a Ha. simpl in Ha.
  destruct (is_sensitive l' a) eqn:E; [|reflexivity].
  now rewrite (sensitive_monotone _ _ _ Hle E) in Ha.
Qed.

Lemma public_part_shorter (l : PrivacyLevel.t) (attrs : list Attribute) :
  private_part l attrs <> [] -> public_part l attrs <> attrs.
Proof.
  intros Hsome Heq. apply Hsome.
  pose proof (List.filter_length (is_sensitive l) attrs) as Hlen.
  fold (private_part l attrs) in Hlen.
  change (List.filter (fun x => negb (is_sensitive l x)) attrs)
    with (public_part l attrs) in Hlen.
  rewrite Heq in Hlen.
  destruct (private_part l attrs); [reflexivity|simpl in Hlen; lia].
Qed.

Section MoreBundles.

Context {rt : Runtime}.

(** With a key that has not 32 bytes, sealing fails in [createCipheriv],
    after the random IV has been drawn. *)
Lemma encrypt_bad_key (data key : bytes) (w : World) :
  length key <> 32 ->
  encrypt data key w
  = (Throw InvalidKeyLength,
     called (createCipheriv aes_256_gcm) (bytes_drawn 16 w)).
Proof.
  intros Hkey. unfold encrypt, seal_with, check_cipher_args, randomBytes.
  run_js. apply Nat.eqb_neq in Hkey. now rewrite Hkey.
Qed.

Lemma protectMetadata_bad_key (this : Client) (metadata : GlitchGangMetadata)
    (level : PrivacyLevel.t) (w : World) :
  length (encryptionKey this) <> 32 ->
  private_part level (attributes metadata) <> [] ->
  let line := console_log (String.append "Applying privacy level: "
                             (PrivacyLevel.name level)) in
  protectMetadata this metadata level w
  = (Throw InvalidKeyLength,
     called (createCipheriv aes_256_gcm) (bytes_drawn 16 (logged line w))).
Proof.
  intros Hkey Hsome line.
  unfold protectMetadata. rewrite sort_attributes.
  destruct (private_part level (attributes metadata)) as [|a l] eqn:E;
    [contradiction|].
  run_js. now rewrite (encrypt_bad_key _ _ _ Hkey).
Qed.

(** What [protectMetadata] returns with a key of 32 bytes, both cases
    together. *)
Lemma protectMetadata_public (this : Client) (metadata : GlitchGangMetadata)
    (level : PrivacyLevel.t) (w : World) :
  length (encryptionKey this) = 32 ->
  exists P w1,
    protectMetadata this metadata level w = (Ok P, w1)
    /\ attributes P = public_part level (attributes metadata).
Proof.
  intros Hkey.
  destruct (private_part level (attributes metadata)) as [|a l] eqn:E.
  - exists metadata. eexists. split.
    + now apply protectMetadata_nothing_private.
    + symmetry. now apply public_part_all.
  - eexists _, _. split.
    + apply protectMetadata_sealing; [assumption|]. now rewrite E.
    + reflexivity.
Qed.

(** X1: [protectMetadata] fails exactly when the key of the client has not 32
    bytes and the tier protects at least one attribute of the bundle; the
    error is then the one of [createCipheriv].  The constructor accepts
    any key, so a key of a wrong length is noticed only here, and only
    for bundles with something to protect. *)
Theorem protectMetadata_fails_iff (this : Client)
    (metadata : GlitchGangMetadata) (level : PrivacyLevel.t) (w : World) :
  ((exists e, fst (protectMetadata this metadata level w) = Throw e)
   <-> length (encryptionKey this) <> 32
       /\ private_part level (attributes metadata) <> [])
  /\ (forall e, fst (protectMetadata this metadata level w) = Throw e ->
                e = InvalidKeyLength).
Proof.
  destruct (decide (length (encryptionKey this) = 32)) as [Hkey|Hkey].
  - destruct (protectMetadata_public this metadata level w Hkey)
      as (P & w1 & -> & _). cbn [fst].
    split; [split|]; [intros [e He]; discriminate|tauto|discriminate].
  - destruct (private_part level (attributes metadata)) as [|a l] eqn:E.
    + rewrite (protectMetadata_nothing_private this metadata level w E).
      cbn [fst].
      split; [split|]; [intros [e He]; discriminate|tauto|discriminate].
    + rewrite protectMetadata_bad_key by (try rewrite E; easy). cbn [fst].
      split; [split|].
      * intros _. split; [assumption|discriminate].
      * intros _. now eexists.
      * intros e [= <-]. reflexivity.
Qed.

(** X2: [protectMetadata] returns the bundle it was given exactly when the
    tier protects none of its attributes; in particular at the tier
    [None]. *)
Theorem protectMetadata_identity_iff (this : Client)
    (metadata : GlitchGangMetadata) (level : PrivacyLevel.t) (w : World) :
  (fst (protectMetadata this metadata level w) = Ok metadata
   <-> private_part level (attributes metadata) = [])
  /\ fst (protectMetadata this metadata PrivacyLevel.None w) = Ok metadata.
Proof.
  split.
  - split.
    + intros Hsame.
      destruct (private_part level (attributes metadata)) as [|a l] eqn:E;
        [reflexivity|exfalso].
      assert (Hsome : private_part level (attributes metadata) <> [])
        by now rewrite E.
      destruct (decide (length (encryptionKey this) = 32)) as [Hkey|Hkey].
      * rewrite (protectMetadata_sealing this metadata level w Hkey Hsome)
          in Hsame.
        cbn [fst] in Hsame. injection Hsame as Hsame.
        apply (f_equal attributes) in Hsame. cbn in Hsame.
        now apply (public_part_shorter level (attributes metadata)).
      * rewrite (protectMetadata_bad_key this metadata level w Hkey Hsome)
          in Hsame.
        discriminate.
    + intros Hnone. now rewrite protectMetadata_nothing_private.
  - rewrite protectMetadata_nothing_private; [reflexivity|].
    apply private_part_nil, List.Forall_forall. reflexivity.
Qed.

(** X3: Protecting a protected bundle again, at the same tier or at a tier
    below, changes nothing: the second call finds nothing to seal and
    returns its argument, with the sealed record and the tier marker of
    the first call. *)
Theorem protectMetadata_again (this : Client) (B : GlitchGangMetadata)
    (l l' : PrivacyLevel.t) (w w' : World) :
  length (encryptionKey this) = 32 ->
  PrivacyLevel.to_nat l' <= PrivacyLevel.to_nat l ->
  exists P w1,
    protectMetadata this B l w = (Ok P, w1)
    /\ protectMetadata this P l' w'
       = (Ok P,
          logged (console_log (String.append "Applying privacy level: "
                                 (PrivacyLevel.name l'))) w').
Proof.
  intros Hkey Hle.
  destruct (protectMetadata_public this B l w Hkey) as (P & w1 & HP & Hattrs).
  exists P, w1. split; [assumption|].
  apply protectMetadata_nothing_private.
  rewrite Hattrs. now apply private_of_public.
Qed.

(** X4: Protecting a protected bundle at a higher tier that seals something
    more replaces the private-data section: the record sealed by the
    first call is dropped, and revealing the result gives back only what
    the second call sealed.  No attribute that was private at the first
    tier is in the revealed bundle. *)
Theorem protectMetadata_escalation_drops_record
    `{!AeadCorrect rt} `{!CodecCorrect rt}
    (this : Client) (B : GlitchGangMetadata) (l l' : PrivacyLevel.t)
    (w w' w'' : World) :
  length (encryptionKey this) = 32 ->
  private_part l' (public_part l (attributes B)) <> [] ->
  exists P w1 P' w2 R w3,
    protectMetadata this B l w = (Ok P, w1)
    /\ protectMetadata this P l' w' = (Ok P', w2)
    /\ decryptMetadata this P' w'' = (Ok R, w3)
    /\ attributes R
       = public_part l' (public_part l (attributes B))
         ++ private_part l' (public_part l (attributes B))
    /\ Forall (fun a => is_sensitive l a = false) (attributes R).
Proof.
  intros Hkey Hsome.
  destruct (protectMetadata_public this B l w Hkey) as (P & w1 & HP & Hattrs).
  rewrite <- Hattrs in Hsome.
  exists P, w1. eexists _, _, _, _.
  split; [exact HP|].
  split; [exact (protectMetadata_sealing this P l' w' Hkey Hsome)|].
  split; [apply decryptMetadata_sealed;
          [assumption|apply next_bytes_length]|].
  cbn [attributes with_attributes with_privateData]. rewrite Hattrs.
  split; [reflexivity|].
  apply Forall_app. split.
  - eapply List.incl_Forall;
      [|apply (public_part_not_sensitive l (attributes B))].
    intros a Ha. apply List.filter_In in Ha. exact (proj1 Ha).
  - eapply List.incl_Forall;
      [|apply (public_part_not_sensitive l (attributes B))].
    intros a Ha. apply List.filter_In in Ha. exact (proj1 Ha).
Qed.

(** X5: [decryptMetadata] never throws: whatever the bundle, the key and the
    runtime, it returns a bundle, and this bundle is its argument with
    attributes appended (none when nothing could be revealed).  The
    private-data section, with the sealed record, stays in the result. *)
Theorem decryptMetadata_never_throws (this : Client)
    (protectedMetadata : GlitchGangMetadata) (w : World) :
  exists R w' private,
    decryptMetadata this protectedMetadata w = (Ok R, w')
    /\ R = with_attributes protectedMetadata
             (attributes protectedMetadata ++ private)
    /\ privateData R = privateData protectedMetadata.
Proof.
  unfold decryptMetadata.
  destruct (truthy (privateData protectedMetadata ≫= encryptedAttributes)).
  - cbn [negb]. unfold try_catch, mbind, Js_bind.
    destruct (decrypt _ (encryptionKey this) w) as [[d|e] w1].
    + unfold JSON_parse_or_throw.
      destruct (JSON_parse (Buffer_toString d)) as [attrs|]; run_js.
      * eexists _, _, attrs. repeat split.
      * eexists _, _, []. rewrite app_nil_r, with_attributes_same.
        repeat split.
    + run_js. eexists _, _, []. rewrite app_nil_r, with_attributes_same.
      repeat split.
  - cbn [negb]. run_js. eexists _, _, [].
    rewrite app_nil_r, with_attributes_same. repeat split.
Qed.

(** X6: A client constructed without a key draws 32 random bytes for it, once
    the constructors of the library have accepted the endpoint and the
    program id; it can then always protect, and it reveals what it
    protected: the public attributes in their order, followed by the
    private ones.  When a library constructor throws, no client results
    and no random byte has been drawn. *)
Theorem construct_client_key_round_trip
    `{!AeadCorrect rt} `{!CodecCorrect rt}
    (endpoint : string) (keypair : bytes) (program : string)
    (B : GlitchGangMetadata) (level : PrivacyLevel.t) (w w' w'' : World) :
  private_part level (attributes B) <> [] ->
  (exists this P w1 R w2,
     construct_client endpoint keypair program None (Ok tt) w
     = (Ok this, bytes_drawn 32 w)
     /\ encryptionKey this = next_bytes 32 w
     /\ vrmModel this = None
     /\ protectMetadata this B level w' = (Ok P, w1)
     /\ decryptMetadata this P w'' = (Ok R, w2)
     /\ attributes R
        = public_part level (attributes B)
          ++ private_part level (attributes B))
  /\ (forall error key,
        construct_client endpoint keypair program key (Throw error) w
        = (Throw error, w)).
Proof.
  intros Hsome. split; [|reflexivity].
  set (this := mkClient endpoint keypair program (next_bytes 32 w) None).
  assert (Hkey : length (encryptionKey this) = 32)
    by apply next_bytes_length.
  exists this. eexists _, _, _, _.
  split; [reflexivity|]. split; [reflexivity|]. split; [reflexivity|].
  split; [exact (protectMetadata_sealing this B level w' Hkey Hsome)|].
  split; [apply decryptMetadata_sealed;
          [assumption|apply next_bytes_length]|].
  reflexivity.
Qed.

End MoreBundles.

Lemma protectMetadata_again_witness :
  length (encryptionKey Demo.client) = 32
  /\ PrivacyLevel.to_nat PrivacyLevel.Light
     <= PrivacyLevel.to_nat PrivacyLevel.Medium
  /\ exists P w1,
       protectMetadata (rt:=Ref.runtime) Demo.client Samples.dossier
         PrivacyLevel.Medium Demo.world = (Ok P, w1)
       /\ protectMetadata (rt:=Ref.runtime) Demo.client P PrivacyLevel.Light
            Demo.world
          = (Ok P,
             logged (console_log "Applying privacy level: Light") Demo.world).
Proof.
  split; [reflexivity|]. split; [simpl; lia|].
  apply (protectMetadata_again (rt:=Ref.runtime) Demo.client Samples.dossier
           PrivacyLevel.Medium PrivacyLevel.Light Demo.world Demo.world).
  - reflexivity.
  - simpl; lia.
Defined.

Lemma protectMetadata_escalation_drops_record_witness :
  length (encryptionKey Demo.client) = 32
  /\ private_part PrivacyLevel.Medium
       (public_part PrivacyLevel.Light (attributes Samples.dossier))
     = [mkAttribute "Mission" "Veil"]
  /\ exists P w1 P' w2 R w3,
       protectMetadata (rt:=Ref.runtime) Demo.client Samples.dossier
         PrivacyLevel.Light Demo.world = (Ok P, w1)
       /\ protectMetadata (rt:=Ref.runtime) Demo.client P PrivacyLevel.Medium
            Demo.world = (Ok P', w2)
       /\ decryptMetadata (rt:=Ref.runtime) Demo.client P' Demo.world
          = (Ok R, w3)
       /\ attributes R
          = public_part PrivacyLevel.Medium
              (public_part PrivacyLevel.Light (attributes Samples.dossier))
            ++ private_part PrivacyLevel.Medium
                 (public_part PrivacyLevel.Light
                    (attributes Samples.dossier))
       /\ Forall (fun a => is_sensitive PrivacyLevel.Light a = false)
            (attributes R).
Proof.
  split; [reflexivity|]. split; [reflexivity|].
  apply (protectMetadata_escalation_drops_record (rt:=Ref.runtime)
           Demo.client Samples.dossier PrivacyLevel.Light PrivacyLevel.Medium
           Demo.world Demo.world Demo.world).
  - reflexivity.
  - discriminate.
Defined.

Lemma construct_client_key_round_trip_witness :
  private_part PrivacyLevel.Heavy (attributes Samples.dossier) <> []
  /\ (exists this P w1 R w2,
        construct_client "https://api.devnet.solana.com" [] "Glch" None
          (Ok tt) Demo.world
        = (Ok this, bytes_drawn 32 Demo.world)
        /\ encryptionKey this = next_bytes 32 Demo.world
        /\ vrmModel this = None
        /\ protectMetadata (rt:=Ref.runtime) this Samples.dossier
             PrivacyLevel.Heavy Demo.world = (Ok P, w1)
        /\ decryptMetadata (rt:=Ref.runtime) this P Demo.world = (Ok R, w2)
        /\ attributes R
           = public_part PrivacyLevel.Heavy (attributes Samples.dossier)
             ++ private_part PrivacyLevel.Heavy (attributes Samples.dossier))
  /\ (forall error key,
        construct_client "https://api.devnet.solana.com" [] "Glch" key
          (Throw error) Demo.world
        = (Throw error, Demo.world)).
Proof.
  split; [discriminate|].
  apply (construct_client_key_round_trip (rt:=Ref.runtime)
           "https://api.devnet.solana.com" [] "Glch" Samples.dossier
           PrivacyLevel.Heavy Demo.world Demo.world Demo.world).
  discriminate.
Defined.


(** ** [addVrmPrivacy] and its callers *)

Lemma truthy_nonempty (s : string) : s <> "" -> truthy (Some s) = true.
Proof.
  intros Hs. simpl. now destruct (String.eqb_spec s "").
Qed.

Lemma addVrmPrivacy_run (this : Client) (metadata : GlitchGangMetadata)
    (uri : string) (w : World) :
  exists updated after,
    addVrmPrivacy this metadata uri w
    = (Ok (updated, after),
       logged (console_log
                 (String.append "Adding VRM privacy settings for model: "
                    uri)) w)
    /\ vrm_config updated = Some (mkVrmConfig uri vrm_privacySettings)
    /\ attributes updated = attributes metadata.
Proof.
  unfold addVrmPrivacy, vrm_config.
  destruct (privateData metadata) as [shared|] eqn:E; run_js;
    eexists _, _; repeat split.
Qed.

(** X7: [addVrmPrivacy] returns a bundle with the configuration of the model
    and the four fixed settings; attributes and sealed record are those of
    its argument, and the tier marker is the one of the argument, or
    ["Medium"] when the argument has no private-data section.  When the
    argument has such a section the configuration is written into it: the
    argument itself then carries the configuration after the call.  An
    argument without the section is left as it was. *)
Theorem addVrmPrivacy_updates_shared_section (this : Client)
    (metadata : GlitchGangMetadata) (uri : string) (w : World) :
  exists updated after,
    addVrmPrivacy this metadata uri w
    = (Ok (updated, after),
       logged (console_log
                 (String.append "Adding VRM privacy settings for model: "
                    uri)) w)
    /\ vrm_config updated = Some (mkVrmConfig uri vrm_privacySettings)
    /\ attributes updated = attributes metadata
    /\ sealed_record updated = sealed_record metadata
    /\ tier_marker updated = Some (default "Medium" (tier_marker metadata))
    /\ after = match privateData metadata with
               | Some _ => updated
               | None => metadata
               end.
Proof.
  unfold addVrmPrivacy, sealed_record, tier_marker, vrm_config.
  destruct (privateData metadata) as [shared|] eqn:E; run_js;
    eexists _, _; (split; [reflexivity|]); cbn; rewrite ?E; repeat split.
Qed.

Section VrmSettings.

Context {rt : Runtime}.

(** What [decryptMetadata] returns on a bundle whose sealed record was
    made with the key of this client, whatever else its private-data
    section holds. *)
Lemma decryptMetadata_sealed_record `{!AeadCorrect rt} `{!CodecCorrect rt}
    (this : Client) (P : GlitchGangMetadata) (iv : bytes)
    (private : list Attribute) (w : World) :
  length (encryptionKey this) = 32 -> length iv = 16 ->
  sealed_record P
  = Some (base64_encode
            (wire iv (aead_encrypt aes_256_gcm (encryptionKey this) iv
                        (Buffer_from (JSON_stringify private))))) ->
  decryptMetadata this P w
  = (Ok (with_attributes P (attributes P ++ private)),
     called (createDecipheriv aes_256_gcm) w).
Proof.
  intros Hkey Hiv Hsealed.
  unfold decryptMetadata. fold (sealed_record P). rewrite Hsealed.
  rewrite base64_encode_truthy.
  2:{ unfold wire. destruct iv; [discriminate|]. discriminate. }
  cbn [negb default from_option Datatypes.id]. rewrite base64_decode_encode.
  run_js. rewrite (decrypt_wire _ _ _ _ Hkey Hiv).
  unfold JSON_parse_or_throw.
  rewrite Buffer_toString_from, JSON_parse_stringify. reflexivity.
Qed.

(** X8: Protect, then add the VRM settings, then reveal: the settings do not
    disturb the sealed record.  The revealed bundle has the public
    attributes followed by the private ones, the configuration of the
    model and the tier marker of [protectMetadata]. *)
Theorem decryptMetadata_after_addVrmPrivacy
    `{!AeadCorrect rt} `{!CodecCorrect rt}
    (this : Client) (B : GlitchGangMetadata) (level : PrivacyLevel.t)
    (uri : string) (w w' w'' : World) :
  length (encryptionKey this) = 32 ->
  private_part level (attributes B) <> [] ->
  exists P w1 U after w2 R w3,
    protectMetadata this B level w = (Ok P, w1)
    /\ addVrmPrivacy this P uri w' = (Ok (U, after), w2)
    /\ decryptMetadata this U w'' = (Ok R, w3)
    /\ attributes R
       = public_part level (attributes B) ++ private_part level (attributes B)
    /\ vrm_config R = Some (mkVrmConfig uri vrm_privacySettings)
    /\ tier_marker R = Some (PrivacyLevel.name level).
Proof.
  intros Hkey Hsome.
  eexists _, _, _, _, _, _, _.
  split; [exact (protectMetadata_sealing this B level w Hkey Hsome)|].
  split; [reflexivity|].
  split.
  - eapply decryptMetadata_sealed_record; [exact Hkey| |reflexivity].
    apply next_bytes_length.
  - repeat split.
Qed.

(** X9: The other order loses the settings: [protectMetadata] builds a new
    private-data section whenever it seals something, so a configuration
    added before is not in the protected bundle. *)
Theorem protectMetadata_drops_vrmConfig (this : Client)
    (B : GlitchGangMetadata) (level : PrivacyLevel.t) (uri : string)
    (w w' : World) :
  length (encryptionKey this) = 32 ->
  private_part level (attributes B) <> [] ->
  exists U after w1 P w2,
    addVrmPrivacy this B uri w = (Ok (U, after), w1)
    /\ vrm_config U = Some (mkVrmConfig uri vrm_privacySettings)
    /\ protectMetadata this U level w' = (Ok P, w2)
    /\ vrm_config P = None
    /\ tier_marker P = Some (PrivacyLevel.name level).
Proof.
  intros Hkey Hsome.
  destruct (addVrmPrivacy_run this B uri w)
    as (U & after & HU & Hconfig & Hattrs).
  rewrite <- Hattrs in Hsome.
  exists U, after. eexists _, _, _.
  split; [exact HU|]. split; [exact Hconfig|].
  split; [exact (protectMetadata_sealing this U level w' Hkey Hsome)|].
  split; reflexivity.
Qed.

(** X10: The demo page discards what [addVrmPrivacy] returns and displays the
    bundle it passed to it.  With a model URL in the form, the displayed
    bundle carries the VRM settings exactly when the tier sealed something
    or the selected bundle already had a private-data section; otherwise
    the settings are lost without notice. *)
Theorem applyPrivacyProtection_settings_iff (client : Client)
    (selected : GlitchGangMetadata) (level : PrivacyLevel.t)
    (vrmModelUrl : string) (w : World) :
  length (encryptionKey client) = 32 ->
  vrmModelUrl <> "" ->
  exists shown w',
    applyPrivacyProtection client selected level vrmModelUrl w
    = (Ok shown, w')
    /\ attributes shown = public_part level (attributes selected)
    /\ (vrm_config shown = Some (mkVrmConfig vrmModelUrl vrm_privacySettings)
        <-> private_part level (attributes selected) <> []
            \/ is_Some (privateData selected))
    /\ (private_part level (attributes selected) = [] ->
        privateData selected = None -> shown = selected).
Proof.
  intros Hkey Hurl. unfold applyPrivacyProtection.
  rewrite (truthy_nonempty _ Hurl).
  destruct (private_part level (attributes selected)) as [|a l] eqn:E.
  - rewrite (bind_ok _ _ _ _ _
               (protectMetadata_nothing_private client selected level w E)).
    unfold addVrmPrivacy, vrm_config.
    rewrite (public_part_all _ _ E).
    destruct (privateData selected) as [shared|] eqn:Ep; run_js;
      eexists _, _; (split; [reflexivity|]); cbn; rewrite ?Ep;
      (split; [reflexivity|]); split; try easy.
    + split; [intros _; right; now eexists|reflexivity].
    + split; [discriminate|]. intros [[]|[x Hx]]; [easy|discriminate].
  - assert (Hsome : private_part level (attributes selected) <> [])
      by now rewrite E.
    rewrite (bind_ok _ _ _ _ _
               (protectMetadata_sealing client selected level w Hkey Hsome)).
    run_js. eexists _, _. split; [reflexivity|]. cbn.
    split; [reflexivity|]. split; [|now rewrite E].
    split; [intros _; now left|reflexivity].
Qed.

(** X11: The React panel uses the returned bundle: whatever the tier and the
    bundle, its result carries a VRM configuration. *)
Theorem applyPrivacyLevel_has_settings (client : Client)
    (metadata : GlitchGangMetadata) (level : PrivacyLevel.t) (w : World) :
  length (encryptionKey client) = 32 ->
  exists final w',
    applyPrivacyLevel client metadata level w = (Ok final, w')
    /\ is_Some (vrm_config final)
    /\ attributes final = public_part level (attributes metadata)
    /\ (vrm_config metadata = None \/
        private_part level (attributes metadata) <> [] ->
        vrm_config final
        = Some (mkVrmConfig
                  "https://models.glitchgang.io/avatars/default.vrm"
                  vrm_privacySettings)).
Proof.
  intros Hkey. unfold applyPrivacyLevel.
  destruct (private_part level (attributes metadata)) as [|a l] eqn:E.
  - rewrite (bind_ok _ _ _ _ _
               (protectMetadata_nothing_private client metadata level w E)).
    rewrite (public_part_all _ _ E).
    destruct (vrm_config metadata) as [config|] eqn:Ec.
    + run_js. eexists _, _. split; [reflexivity|].
      split; [rewrite Ec; now eexists|]. split; [reflexivity|].
      intros [H|H]; [discriminate|easy].
    + unfold addVrmPrivacy.
      destruct (privateData metadata) as [shared|] eqn:Ep; run_js;
        eexists _, _; (split; [reflexivity|]); unfold vrm_config; cbn;
        rewrite ?Ep; (split; [now eexists|]); split; reflexivity.
  - assert (Hsome : private_part level (attributes metadata) <> [])
      by now rewrite E.
    rewrite (bind_ok _ _ _ _ _
               (protectMetadata_sealing client metadata level w Hkey Hsome)).
    run_js. eexists _, _. split; [reflexivity|]. unfold vrm_config. cbn.
    split; [now eexists|]. split; reflexivity.
Qed.

End VrmSettings.

Lemma decryptMetadata_after_addVrmPrivacy_witness :
  length (encryptionKey Demo.client) = 32
  /\ private_part PrivacyLevel.Light (attributes Demo.metadata) <> []
  /\ exists P w1 U after w2 R w3,
       protectMetadata (rt:=Ref.runtime) Demo.client Demo.metadata
         PrivacyLevel.Light Demo.world = (Ok P, w1)
       /\ addVrmPrivacy Demo.client P Samples.model_uri Demo.world
          = (Ok (U, after), w2)
       /\ decryptMetadata (rt:=Ref.runtime) Demo.client U Demo.world
          = (Ok R, w3)
       /\ attributes R
          = public_part PrivacyLevel.Light (attributes Demo.metadata)
            ++ private_part PrivacyLevel.Light (attributes Demo.metadata)
       /\ vrm_config R
          = Some (mkVrmConfig Samples.model_uri vrm_privacySettings)
       /\ tier_marker R = Some (PrivacyLevel.name PrivacyLevel.Light).
Proof.
  split; [reflexivity|]. split; [discriminate|].
  apply (decryptMetadata_after_addVrmPrivacy (rt:=Ref.runtime) Demo.client
           Demo.metadata PrivacyLevel.Light Samples.model_uri Demo.world
           Demo.world Demo.world).
  - reflexivity.
  - discriminate.
Defined.

Lemma protectMetadata_drops_vrmConfig_witness :
  length (encryptionKey Demo.client) = 32
  /\ private_part PrivacyLevel.Light (attributes Demo.metadata) <> []
  /\ exists U after w1 P w2,
       addVrmPrivacy Demo.client Demo.metadata Samples.model_uri Demo.world
       = (Ok (U, after), w1)
       /\ vrm_config U
          = Some (mkVrmConfig Samples.model_uri vrm_privacySettings)
       /\ protectMetadata (rt:=Ref.runtime) Demo.client U PrivacyLevel.Light
            Demo.world = (Ok P, w2)
       /\ vrm_config P = None
       /\ tier_marker P = Some (PrivacyLevel.name PrivacyLevel.Light).
Proof.
  split; [reflexivity|]. split; [discriminate|].
  apply (protectMetadata_drops_vrmConfig (rt:=Ref.runtime) Demo.client
           Demo.metadata PrivacyLevel.Light Samples.model_uri Demo.world
           Demo.world).
  - reflexivity.
  - discriminate.
Defined.

(** The page on a bundle without private attributes: a model URL was
    given, and the displayed bundle is the selected one, without
    settings. *)
Lemma applyPrivacyProtection_settings_iff_witness :
  length (encryptionKey Demo.client) = 32
  /\ Samples.model_uri <> ""
  /\ exists shown w',
       applyPrivacyProtection (rt:=Ref.runtime) Demo.client
         Demo.public_metadata PrivacyLevel.Light Samples.model_uri Demo.world
       = (Ok shown, w')
       /\ attributes shown
          = public_part PrivacyLevel.Light (attributes Demo.public_metadata)
       /\ (vrm_config shown
           = Some (mkVrmConfig Samples.model_uri vrm_privacySettings)
           <-> private_part PrivacyLevel.Light
                 (attributes Demo.public_metadata) <> []
               \/ is_Some (privateData Demo.public_metadata))
       /\ (private_part PrivacyLevel.Light (attributes Demo.public_metadata)
           = [] ->
           privateData Demo.public_metadata = None ->
           shown = Demo.public_metadata).
Proof.
  split; [reflexivity|]. split; [discriminate|].
  apply (applyPrivacyProtection_settings_iff (rt:=Ref.runtime) Demo.client
           Demo.public_metadata PrivacyLevel.Light Samples.model_uri
           Demo.world).
  - reflexivity.
  - discriminate.
Defined.

Lemma applyPrivacyLevel_has_settings_witness :
  length (encryptionKey Demo.client) = 32
  /\ exists final w',
       applyPrivacyLevel (rt:=Ref.runtime) Demo.client Demo.public_metadata
         PrivacyLevel.Light Demo.world = (Ok final, w')
       /\ is_Some (vrm_config final)
       /\ attributes final
          = public_part PrivacyLevel.Light (attributes Demo.public_metadata)
       /\ (vrm_config Demo.public_metadata = None \/
           private_part PrivacyLevel.Light (attributes Demo.public_metadata)
           <> [] ->
           vrm_config final
           = Some (mkVrmConfig
                     "https://models.glitchgang.io/avatars/default.vrm"
                     vrm_privacySettings)).
Proof.
  split; [reflexivity|].
  apply (applyPrivacyLevel_has_settings (rt:=Ref.runtime) Demo.client
           Demo.public_metadata PrivacyLevel.Light Demo.world).
  reflexivity.
Defined.

(** ** The ciphers: records, keys and passwords *)

Lemma subarray_length (buf : bytes) (start stop : nat) :
  length (subarray buf start stop)
  = Nat.min (stop - start) (length buf - start).
Proof. unfold subarray. now rewrite length_take, length_drop. Qed.

Lemma Buffer_from_append (s t : string) :
  Buffer_from (String.append s t) = Buffer_from s ++ Buffer_from t.
Proof.
  unfold Buffer_from, list_byte_of_string.
  induction s as [|c s IH]; [reflexivity|].
  rewrite RefFacts.append_cons. cbn [list_ascii_of_string map].
  now rewrite IH.
Qed.

Section MoreCrypto.

Context {rt : Runtime}.

(** X12: [encrypt] with a key of 32 bytes returns the record
    [[iv 16][tag 16][ciphertext]], whose IV is the 16 bytes it has just
    drawn, and [decrypt] with the same key gives the data back. *)
Theorem encrypt_record_round_trip `{!AeadCorrect rt} (data key : bytes)
    (w w' : World) :
  length key = 32 ->
  exists iv tag ciphertext,
    encrypt data key w
    = (Ok (iv ++ tag ++ ciphertext),
       called (createCipheriv aes_256_gcm) (bytes_drawn 16 w))
    /\ iv = next_bytes 16 w /\ length iv = 16 /\ length tag = 16
    /\ (ciphertext, tag) = aead_encrypt aes_256_gcm key iv data
    /\ decrypt (iv ++ tag ++ ciphertext) key w'
       = (Ok data, called (createDecipheriv aes_256_gcm) w').
Proof.
  intros Hkey.
  exists (next_bytes 16 w),
    (snd (aead_encrypt aes_256_gcm key (next_bytes 16 w) data)),
    (fst (aead_encrypt aes_256_gcm key (next_bytes 16 w) data)).
  split; [exact (encrypt_ok data key w Hkey)|].
  split; [reflexivity|]. split; [apply next_bytes_length|].
  split; [apply aead_tag_length|].
  split; [now destruct (aead_encrypt _ _ _ _)|].
  apply (decrypt_wire data key (next_bytes 16 w) w' Hkey).
  apply next_bytes_length.
Qed.

(** [encrypt] fails exactly when the key has not 32 bytes; the 16 random
    bytes of the IV are consumed and the cipher object is requested in both
    cases. *)
Theorem encrypt_fails_iff (data key : bytes) (w : World) :
  ((exists e, fst (encrypt data key w) = Throw e) <-> length key <> 32)
  /\ (forall e, fst (encrypt data key w) = Throw e -> e = InvalidKeyLength)
  /\ snd (encrypt data key w)
     = called (createCipheriv aes_256_gcm) (bytes_drawn 16 w).
Proof.
  destruct (decide (length key = 32)) as [Hkey|Hkey].
  - rewrite (encrypt_ok data key w Hkey). cbn [fst snd].
    split; [split|split]; try easy. intros [e He]. discriminate.
  - rewrite (encrypt_bad_key data key w Hkey). cbn [fst snd].
    split; [split|split]; try easy.
    + intros _. now eexists.
    + now intros e [= <-].
Qed.

(** X13: A record of fewer than 20 bytes is refused by [decrypt] before the
    cipher sees it: an empty record has no IV, and in any other the bytes
    left for the tag are fewer than 4.  No plaintext is returned. *)
Theorem decrypt_rejects_short_record (record key : bytes) (w : World) :
  length key = 32 ->
  length record < 20 ->
  decrypt record key w
  = (Throw (if length record =? 0 then InvalidIV
            else InvalidAuthTagLength (length record - 16)),
     called (createDecipheriv aes_256_gcm) w).
Proof.
  intros Hkey Hshort. unfold decrypt.
  pose proof (subarray_length record 0 16) as Hiv.
  pose proof (subarray_length record 16 32) as Htag.
  set (iv := subarray record 0 16) in *.
  set (authTag := subarray record 16 32) in *.
  clearbody iv authTag.
  assert (Htag' : length authTag = length record - 16) by lia.
  assert (Hsmall : length authTag < 4) by lia.
  unfold open_with, check_cipher_args, iv_length_ok, auth_tag_length_ok,
    mbind, Js_bind, record_call, mret, Js_ret, throw, supported.
  rewrite Hkey, <- Htag'. cbn [Nat.eqb negb].
  destruct (length record) as [|n] eqn:E.
  - replace (length iv) with 0 by lia. reflexivity.
  - destruct (length iv) as [|k]; [lia|]. cbn [Nat.ltb Nat.leb negb Nat.eqb].
    destruct (length authTag) as [|[|[|[|m]]]]; try reflexivity. lia.
Qed.

(** X14: [encryptChaCha20] and [decryptChaCha20] on one runtime: with a key of
    32 bytes [encryptChaCha20] never fails, whether the runtime has
    ChaCha20-Poly1305 or not, and [decryptChaCha20] gives the data back.
    The record has a nonce of 12 bytes when the cipher is available and an
    IV of 16 bytes when AES-256-GCM took its place. *)
Theorem decryptChaCha20_encryptChaCha20 `{!AeadCorrect rt}
    (data key : bytes) (w w' : World) :
  length key = 32 ->
  exists nonce tag ciphertext w1 w2,
    encryptChaCha20 data key w = (Ok (nonce ++ tag ++ ciphertext), w1)
    /\ length nonce = (if chacha20_supported then 12 else 16)
    /\ length tag = 16
    /\ (ciphertext, tag)
       = aead_encrypt
           (if chacha20_supported then chacha20_poly1305 else aes_256_gcm)
           key nonce data
    /\ decryptChaCha20 (nonce ++ tag ++ ciphertext) key w' = (Ok data, w2).
Proof.
  intros Hkey.
  unfold encryptChaCha20, decryptChaCha20, decryptChaCha20_try.
  rewrite Hkey. cbn [Nat.eqb negb].
  destruct chacha20_supported eqn:Hsup.
  - exists (next_bytes 12 w),
      (snd (aead_encrypt chacha20_poly1305 key (next_bytes 12 w) data)),
      (fst (aead_encrypt chacha20_poly1305 key (next_bytes 12 w) data)).
    pose proof (aead_tag_length chacha20_poly1305 key (next_bytes 12 w) data)
      as Htag.
    eexists _, _. split; [|split; [apply next_bytes_length|split;
      [exact Htag|split; [now destruct (aead_encrypt _ _ _ _)|]]]].
    + unfold seal_with, check_cipher_args, randomBytes, supported. run_js.
      rewrite Hsup, Hkey, next_bytes_length. cbn.
      now destruct (aead_encrypt _ _ _ _).
    + rewrite subarray_head, (subarray_middle _ _ _ 12 28),
        subarray_from_tail
        by (rewrite ?Htag, ?next_bytes_length; lia).
      unfold open_with, check_cipher_args, supported. run_js.
      rewrite Hsup, Hkey, Htag, next_bytes_length. cbn.
      now rewrite aead_decrypt_encrypt.
  - set (line :=
           console_warn
             "ChaCha20-Poly1305 not available, falling back to AES-GCM").
    set (w1 := logged line
                 (called (createCipheriv chacha20_poly1305)
                    (bytes_drawn 12 w))).
    exists (next_bytes 16 w1),
      (snd (aead_encrypt aes_256_gcm key (next_bytes 16 w1) data)),
      (fst (aead_encrypt aes_256_gcm key (next_bytes 16 w1) data)).
    pose proof (aead_tag_length aes_256_gcm key (next_bytes 16 w1) data)
      as Htag.
    eexists _, _. split; [|split; [apply next_bytes_length|split;
      [exact Htag|split; [now destruct (aead_encrypt _ _ _ _)|]]]].
    + unfold seal_with, check_cipher_args, randomBytes, supported. run_js.
      rewrite Hsup. cbn. exact (encrypt_ok data key w1 Hkey).
    + unfold open_with, check_cipher_args, supported. run_js.
      rewrite Hsup. cbn.
      apply (decrypt_wire data key (next_bytes 16 w1) _ Hkey).
      apply next_bytes_length.
Qed.

Section WithDigests.

Context {dg : Digests}.

(** X15: [decryptWithPassword] opens what [encryptWithPassword] made with the
    same password: the record is the 16 bytes of the salt followed by the
    record of [encrypt] under the key derived from password and salt, and
    the salt is read back from the record. *)
Theorem decryptWithPassword_encryptWithPassword
    `{!AeadCorrect rt} `{!DigestLengths dg}
    (data : bytes) (password : string) (w w' : World) :
  exists salt sealed w1,
    encryptWithPassword data password w = (Ok (salt ++ sealed), w1)
    /\ salt = next_bytes 16 w
    /\ 32 <= length sealed
    /\ decrypt sealed (pbkdf2Sync password salt 100000%N 32 "sha256") w'
       = (Ok data, called (createDecipheriv aes_256_gcm) w')
    /\ decryptWithPassword (salt ++ sealed) password w'
       = (Ok data, called (createDecipheriv aes_256_gcm) w').
Proof.
  set (salt := next_bytes 16 w).
  set (key := pbkdf2Sync password salt 100000%N 32 "sha256").
  assert (Hkey : length key = 32) by apply pbkdf2Sync_length.
  assert (Hsalt : length salt = 16) by apply next_bytes_length.
  set (iv := next_bytes 16 (bytes_drawn 16 w)).
  assert (Hiv : length iv = 16) by apply next_bytes_length.
  exists salt, (wire iv (aead_encrypt aes_256_gcm key iv data)).
  eexists.
  split; [|split; [reflexivity|split; [|split]]].
  - unfold encryptWithPassword, randomBytes. run_js.
    fold salt. fold key. now rewrite (encrypt_ok data key _ Hkey).
  - unfold wire. rewrite !length_app, Hiv, aead_tag_length. lia.
  - now apply decrypt_wire.
  - unfold decryptWithPassword.
    rewrite subarray_head by exact Hsalt.
    replace (subarray_from
               (salt ++ wire iv (aead_encrypt aes_256_gcm key iv data)) 16)
      with (wire iv (aead_encrypt aes_256_gcm key iv data))
      by (unfold subarray_from; rewrite <- Hsalt;
          now rewrite drop_app_length).
    now apply decrypt_wire.
Qed.

(** X16: [createSecureKey] returns 32 bytes, and it depends on its inputs only
    through their concatenation: how the entropy is split into buffers
    makes no difference to the key. *)
Theorem createSecureKey_concatenation `{!DigestLengths dg}
    (entropyInputs : list bytes) :
  length (createSecureKey entropyInputs) = 32
  /\ createSecureKey entropyInputs = createSecureKey [concat entropyInputs]
  /\ (forall a b rest,
        createSecureKey (a :: b :: rest) = createSecureKey ((a ++ b) :: rest)).
Proof.
  unfold createSecureKey. split; [|split].
  - rewrite subarray_length, sha512_length. reflexivity.
  - simpl. now rewrite app_nil_r.
  - intros a b rest. simpl. now rewrite app_assoc.
Qed.

(** [createDeterministicHash] hashes the concatenation of its inputs, a
    string counting as its bytes: regrouped inputs hash alike, and with a
    single input the hash is [hashData] of it. *)
Theorem createDeterministicHash_concatenation
    (s t : string) (b : bytes) (rest : list (string + bytes)) :
  createDeterministicHash (inl s :: inl t :: rest)
  = createDeterministicHash (inl (String.append s t) :: rest)
  /\ createDeterministicHash (inl s :: inr b :: rest)
     = createDeterministicHash (inr (Buffer_from s ++ b) :: rest)
  /\ createDeterministicHash [inl s] = hashData (inl s)
  /\ hashData (inl s) = hashData (inr (Buffer_from s)).
Proof.
  unfold createDeterministicHash, hashData. cbn [map concat input_bytes].
  repeat split.
  - now rewrite Buffer_from_append, app_assoc.
  - now rewrite app_assoc.
  - now rewrite app_nil_r.
Qed.

End WithDigests.

End MoreCrypto.

#[global] Instance ref_digest_lengths : DigestLengths RefDigests.digests.
Proof.
  split; intros; cbn [pbkdf2Sync sha512 RefDigests.digests];
    unfold RefDigests.stretch; now rewrite length_map, length_seq.
Qed.

Lemma encrypt_record_round_trip_witness :
  length Demo.key = 32
  /\ exists iv tag ciphertext,
       encrypt (rt:=Ref.runtime) Demo.payload Demo.key Demo.world
       = (Ok (iv ++ tag ++ ciphertext),
          called (createCipheriv aes_256_gcm) (bytes_drawn 16 Demo.world))
       /\ iv = next_bytes 16 Demo.world /\ length iv = 16 /\ length tag = 16
       /\ (ciphertext, tag)
          = aead_encrypt (Runtime:=Ref.runtime) aes_256_gcm Demo.key iv
              Demo.payload
       /\ decrypt (rt:=Ref.runtime) (iv ++ tag ++ ciphertext) Demo.key
            Demo.world
          = (Ok Demo.payload, called (createDecipheriv aes_256_gcm) Demo.world).
Proof.
  split; [reflexivity|].
  apply (encrypt_record_round_trip (rt:=Ref.runtime) Demo.payload Demo.key
           Demo.world Demo.world).
  reflexivity.
Defined.

Lemma decrypt_rejects_short_record_witness :
  length Demo.key = 32
  /\ length (take 19 (Ref.base64_decode Demo.sealed_b64)) < 20
  /\ decrypt (rt:=Ref.runtime) (take 19 (Ref.base64_decode Demo.sealed_b64))
       Demo.key Demo.world
     = (Throw (InvalidAuthTagLength 3),
        called (createDecipheriv aes_256_gcm) Demo.world).
Proof.
  split; [reflexivity|]. split; [vm_compute; lia|].
  apply (decrypt_rejects_short_record (rt:=Ref.runtime)
           (take 19 (Ref.base64_decode Demo.sealed_b64)) Demo.key Demo.world).
  - reflexivity.
  - vm_compute; lia.
Defined.

Lemma decryptChaCha20_encryptChaCha20_witness :
  length Demo.key = 32
  /\ exists nonce tag ciphertext w1 w2,
       encryptChaCha20 (rt:=Ref.runtime_without_chacha) Demo.payload Demo.key
         Demo.world = (Ok (nonce ++ tag ++ ciphertext), w1)
       /\ length nonce = 16
       /\ length tag = 16
       /\ (ciphertext, tag)
          = aead_encrypt (Runtime:=Ref.runtime_without_chacha) aes_256_gcm
              Demo.key nonce Demo.payload
       /\ decryptChaCha20 (rt:=Ref.runtime_without_chacha)
            (nonce ++ tag ++ ciphertext) Demo.key Demo.world
          = (Ok Demo.payload, w2).
Proof.
  split; [reflexivity|].
  apply (decryptChaCha20_encryptChaCha20 (rt:=Ref.runtime_without_chacha)
           Demo.payload Demo.key Demo.world Demo.world).
  reflexivity.
Defined.

Lemma decryptWithPassword_encryptWithPassword_witness :
  exists salt sealed w1,
    encryptWithPassword (rt:=Ref.runtime) (dg:=RefDigests.digests)
      Demo.payload "hunter2" Demo.world = (Ok (salt ++ sealed), w1)
    /\ salt = next_bytes 16 Demo.world
    /\ 32 <= length sealed
    /\ decrypt (rt:=Ref.runtime) sealed
         (pbkdf2Sync (Digests:=RefDigests.digests) "hunter2" salt 100000%N 32
            "sha256") Demo.world
       = (Ok Demo.payload, called (createDecipheriv aes_256_gcm) Demo.world)
    /\ decryptWithPassword (rt:=Ref.runtime) (dg:=RefDigests.digests)
         (salt ++ sealed) "hunter2" Demo.world
       = (Ok Demo.payload, called (createDecipheriv aes_256_gcm) Demo.world).
Proof.
  apply (decryptWithPassword_encryptWithPassword (rt:=Ref.runtime)
           (dg:=RefDigests.digests) Demo.payload "hunter2" Demo.world
           Demo.world).
Defined.

Lemma createSecureKey_concatenation_witness :
  length (createSecureKey (dg:=RefDigests.digests)
            [Demo.key; Demo.payload]) = 32
  /\ createSecureKey (dg:=RefDigests.digests) [Demo.key; Demo.payload]
     = createSecureKey (dg:=RefDigests.digests)
         [concat [Demo.key; Demo.payload]]
  /\ (forall a b rest,
        createSecureKey (dg:=RefDigests.digests) (a :: b :: rest)
        = createSecureKey (dg:=RefDigests.digests) ((a ++ b) :: rest)).
Proof.
  apply (createSecureKey_concatenation (dg:=RefDigests.digests)
           [Demo.key; Demo.payload]).
Defined.

(** ** Behavioural frames: the ranges of the masked fields *)

Lemma centred_value (r i : R) :
  ((Num r - Num 0.5) * Num 2 * Num i)%num = Num ((r - 0.5) * 2 * i).
Proof. reflexivity. Qed.

Lemma centred_bound (r i : R) :
  (0 <= r < 1)%R -> (0 <= i)%R -> (Rabs ((r - 0.5) * 2 * i) <= i)%R.
Proof.
  intros Hr Hi. apply Rabs_le. split; nra.
Qed.

Lemma clamp_in_interval (x : R) :
  in_interval 0 1 (Math_max (Num 0) (Math_min (Num 1) (Num x))).
Proof.
  cbn. unfold Rmax, Rmin.
  destruct (Rle_dec 1 x); destruct (Rle_dec 0 _); lra.
Qed.

Lemma floor_at_least (lo x : R) : at_least lo (Math_max (Num lo) (Num x)).
Proof. cbn. unfold Rmax. destruct (Rle_dec lo x); lra. Qed.

Lemma finite_is_Num (a : number) : is_finite a -> exists x, a = Num x.
Proof. destruct a as [x|]; [now exists x|intros []]. Qed.

Lemma clone_number_finite (a : number) : is_finite (clone_number a).
Proof. now destruct a. Qed.

Lemma for_each_Forall2 {A B : Type} (body : A -> Js B) (P : A -> B -> Prop)
    (xs : list A) :
  Forall (fun x => forall w, exists y w', body x w = (Ok y, w') /\ P x y) xs ->
  forall w, exists ys w', for_each body xs w = (Ok ys, w') /\ Forall2 P xs ys.
Proof.
  induction 1 as [|x xs Hx _ IH]; intros w.
  - exists [], w. split; [reflexivity|constructor].
  - destruct (Hx w) as (y & w1 & Hy & HP).
    destruct (IH w1) as (ys & w2 & Hys & HPs).
    exists (y :: ys), w2. cbn [for_each].
    rewrite (bind_ok _ _ _ _ _ Hy), (bind_ok _ _ _ _ _ Hys).
    split; [reflexivity|now constructor].
Qed.


(** X18: [addGestureNoise] keeps the name and the joint rotations of a gesture;
    whatever the two draws and the intensity, a finite gesture comes out
    with an intensity in [[0, 1]] and a speed of at least 0.1.  The clamps
    do not repair a gesture that is not finite: [NaN] stays [NaN]. *)
Theorem addGestureNoise_clamps (g : GestureData) (i : R) (w : World) :
  (finite_gesture g ->
   exists g',
     addGestureNoise g (Num i) w = (Ok g', drawn 2 w)
     /\ gesture_name g' = gesture_name g
     /\ jointRotations g' = jointRotations g
     /\ gesture_in_range g')
  /\ (intensity g = NaN -> speed g = NaN ->
      addGestureNoise g (Num i) w
      = (Ok (mkGesture (gesture_name g) NaN NaN (jointRotations g)),
         drawn 2 w)).
Proof.
  split.
  - intros (Hi & Hs).
    apply finite_is_Num in Hi, Hs. destruct Hi as [x Hx], Hs as [s Hs].
    eexists. split; [reflexivity|].
    cbn [gesture_name jointRotations]. split; [reflexivity|].
    split; [reflexivity|].
    unfold gesture_in_range. cbn [intensity speed]. rewrite Hx, Hs.
    rewrite !centred_value. cbn [nadd lift2].
    split; [apply clamp_in_interval|apply floor_at_least].
  - intros Hi Hs. unfold addGestureNoise. run_js. now rewrite Hi, Hs.
Qed.



(** ** Behavioural frames: the rotation of the masked frame *)

Lemma quat_normalize_unit (a b c d : R) :
  norm2 a b c d <> 0%R ->
  let n := sqrt (norm2 a b c d) in
  quat_normalize (mkRotation (Num a) (Num b) (Num c) (Num d))
  = mkRotation (Num (a / n)) (Num (b / n)) (Num (c / n)) (Num (d / n))
  /\ norm2 (a / n) (b / n) (c / n) (d / n) = 1%R.
Proof.
  intros Hn n.
  assert (Hpos : (0 < norm2 a b c d)%R).
  { assert (0 <= norm2 a b c d)%R by (unfold norm2; nra). lra. }
  assert (Hsqrt : (0 < n)%R) by now apply sqrt_lt_R0.
  assert (Hsq : (n * n = norm2 a b c d)%R) by (apply sqrt_sqrt; lra).
  split.
  - unfold quat_normalize, quat_mag.
    cbn [rot_x rot_y rot_z rot_w nsquare nmul nadd lift2].
    fold (norm2 a b c d). rewrite Math_sqrt_nonneg by lra. fold n.
    now rewrite !ndiv_nonzero by lra.
  - unfold norm2 in *.
    replace (a / n * (a / n) + b / n * (b / n) + c / n * (c / n)
             + d / n * (d / n))%R
      with ((a * a + b * b + c * c + d * d) / (n * n))%R by (field; lra).
    rewrite Hsq. field. lra.
Qed.


(** ** The frames of the examples *)

Lemma unit_draws_world_with_frame : unit_draws Demo.world_with_frame.
Proof. intros i. cbn. lra. Qed.

Lemma unit_draws_world_with_busy_frame :
  unit_draws Samples.world_with_busy_frame.
Proof. intros i. cbn. destruct (Nat.even i); lra. Qed.


Lemma addGestureNoise_clamps_witness :
  finite_gesture (mkGesture "nod" (Num 0.05) (Num 0.15) ∅)
  /\ exists g',
       addGestureNoise (mkGesture "nod" (Num 0.05) (Num 0.15) ∅) (Num 0.4)
         Samples.world_of_quarters
       = (Ok g', drawn 2 Samples.world_of_quarters)
       /\ gesture_name g' = "nod"
       /\ jointRotations g' = ∅
       /\ gesture_in_range g'.
Proof.
  split; [repeat split|].
  apply (proj1 (addGestureNoise_clamps
                  (mkGesture "nod" (Num 0.05) (Num 0.15) ∅) 0.4
                  Samples.world_of_quarters)).
  repeat split.
Defined.




(** ** The demo page: the check boxes of the protected attributes *)

(** X22: The boxes [updateProtectedAttributes] checks for a tier are the
    categories [getSensitiveAttributes] protects at this tier: what the page
    shows as protected is what the client seals. *)
Theorem updateProtectedAttributes_matches_client (level : PrivacyLevel.t)
    (label : string) :
  In label (labels_of (updateProtectedAttributes (PrivacyLevel.to_nat level)))
  <-> In label (getSensitiveAttributes level).
Proof.
  destruct level; vm_compute; tauto.
Qed.

(** ** The utilities *)

Module UtilsFacts.

Import Utils.

Lemma length_string_of_list_ascii (l : list ascii) :
  String.length (string_of_list_ascii l) = length l.
Proof. induction l as [|c l IH]; simpl; [reflexivity|now rewrite IH]. Qed.

Lemma length_list_ascii_of_string (s : string) :
  length (list_ascii_of_string s) = String.length s.
Proof. induction s as [|c s IH]; simpl; [reflexivity|now rewrite IH]. Qed.

Lemma String_slice_length (str : string) (start stop : Z) :
  String.length (String_slice str start stop)
  = Nat.min (relative_index (String.length str) stop
             - relative_index (String.length str) start)
      (String.length str - relative_index (String.length str) start).
Proof.
  unfold String_slice, slice.
  rewrite length_string_of_list_ascii, length_take, length_drop.
  now rewrite length_list_ascii_of_string.
Qed.

(** X23: [truncateString] returns a string that fits as it is.  A longer string
    is cut to exactly [maxLength] code units, the last three being the
    dots, when [maxLength] is at least 3.  Below 3 the end of the slice is
    negative and counts from the end of the string: the result is longer
    than [maxLength], and for [maxLength] from 0 to 2 it is not shorter
    than the string itself. *)
Theorem truncateString_length (str : string) (maxLength : Z) :
  let len := Z.of_nat (String.length str) in
  let out := Z.of_nat (String.length (truncateString str maxLength)) in
  ((len <= maxLength)%Z -> truncateString str maxLength = str)
  /\ ((maxLength < len)%Z -> (3 <= maxLength)%Z -> out = maxLength)
  /\ ((maxLength < len)%Z -> (maxLength < 3)%Z ->
      out = (Z.max (len + maxLength - 3) 0 + 3)%Z /\ (maxLength < out)%Z)
  /\ ((maxLength < len)%Z -> (0 <= maxLength < 3)%Z -> (3 <= len)%Z ->
      (len <= out)%Z).
Proof.
  intros len out.
  assert (Hcut : (maxLength < len)%Z ->
                 out = (Z.of_nat
                          (Nat.min
                             (relative_index (String.length str)
                                (maxLength - 3)
                              - relative_index (String.length str) 0)
                             (String.length str
                              - relative_index (String.length str) 0)) + 3)%Z).
  { intros Hlong. unfold out, truncateString.
    destruct (Z.leb_spec (Z.of_nat (String.length str)) maxLength);
      [unfold len in Hlong; lia|].
    rewrite RefFacts.append_length, String_slice_length. simpl String.length.
    lia. }
  unfold relative_index in Hcut. fold len in Hcut.
  split; [|split; [|split]].
  - intros Hfits. unfold truncateString.
    destruct (Z.leb_spec (Z.of_nat (String.length str)) maxLength);
      [reflexivity|unfold len in Hfits; lia].
  - intros Hlong Hthree. rewrite (Hcut Hlong).
    destruct (Z.ltb_spec (maxLength - 3) 0); [lia|].
    cbn [Z.ltb Z.compare]. unfold len in *. lia.
  - intros Hlong Hsmall. rewrite (Hcut Hlong).
    destruct (Z.ltb_spec (maxLength - 3) 0); [|lia].
    cbn [Z.ltb Z.compare]. unfold len in *. lia.
  - intros Hlong Hsmall Hlen. rewrite (Hcut Hlong).
    destruct (Z.ltb_spec (maxLength - 3) 0); [|lia].
    cbn [Z.ltb Z.compare]. unfold len in *. lia.
Qed.

Lemma every_from_spec {A : Type} (p : A -> nat -> bool) (a : list A)
    (index : nat) :
  every_from p index a = true
  <-> forall j item, a !! j = Some item -> p item (index + j) = true.
Proof.
  revert index. induction a as [|x a IH]; intros index; cbn [every_from].
  - split; [intros _ j item Hj; discriminate|reflexivity].
  - rewrite andb_true_iff, IH. split.
    + intros [Hx Hrest] [|j] item Hj; cbn in Hj.
      * injection Hj as <-. now rewrite Nat.add_0_r.
      * rewrite Nat.add_succ_r. now apply Hrest.
    + intros Hall. split.
      * rewrite <- (Nat.add_0_r index). now apply (Hall 0).
      * intros j item Hj. replace (S index + j) with (index + S j) by lia.
        now apply (Hall (S j)).
Qed.

(** X24: [arraysEqual] decides equality of arrays whenever [===] decides
    equality of their elements. *)
Theorem arraysEqual_iff {A : Type} (strict_eq : A -> A -> bool)
    (a b : list A) :
  (forall x y, strict_eq x y = true <-> x = y) ->
  arraysEqual strict_eq a b = true <-> a = b.
Proof.
  intros Heq. unfold arraysEqual.
  destruct (Nat.eqb_spec (length a) (length b)) as [Hlen|Hlen]; cbn [negb].
  - rewrite every_from_spec. split.
    + intros Hall. apply list_eq_same_length with (length a);
        [now symmetry|reflexivity|].
      intros i x y _ Hx Hy. specialize (Hall i x Hx). cbn in Hall.
      rewrite Hy in Hall. now apply Heq.
    + intros <- j item Hj. cbn. rewrite Hj. now apply Heq.
  - split; [discriminate|]. intros <-. contradiction.
Qed.

Section ArrayToMap.

Context {T K : Type} `{Countable K}.

Lemma arrayToMap_snoc (array : list T) (keyFn : T -> K) (item : T) :
  arrayToMap (array ++ [item]) keyFn
  = <[keyFn item := item]> (arrayToMap array keyFn).
Proof. unfold arrayToMap. now rewrite fold_left_app. Qed.

(** X25: [arrayToMap] maps a key to the last item of the array that has this
    key: of two items with the same key the later one wins, and the map
    has as many entries as the array has distinct keys, at most its
    length. *)
Theorem arrayToMap_last_wins (array : list T) (keyFn : T -> K) (k : K) :
  arrayToMap array keyFn !! k
  = last (filter (fun item => keyFn item = k) array)
  /\ size (arrayToMap array keyFn) <= length array.
Proof.
  induction array as [|item array IH] using rev_ind.
  - split; [apply lookup_empty|]. unfold arrayToMap. cbn.
    now rewrite map_size_empty.
  - destruct IH as [IHlookup IHsize]. rewrite arrayToMap_snoc. split.
    + rewrite filter_app, filter_cons, filter_nil.
      destruct (decide (keyFn item = k)) as [<-|Hne].
      * rewrite lookup_insert_eq. now rewrite last_snoc.
      * rewrite lookup_insert_ne by exact Hne.
        now rewrite app_nil_r.
    + rewrite length_app. cbn [length].
      destruct (arrayToMap array keyFn !! keyFn item) as [old|] eqn:E.
      * rewrite map_size_insert_Some; [lia|]. rewrite E. now exists old.
      * rewrite map_size_insert_None by exact E. lia.
Qed.

End ArrayToMap.

Lemma backoff_step (delay factor : R) (retries k : nat) :
  (S retries, delay)
  :: map (fun j => (S (S retries + j), (delay * factor * factor ^ j)%R))
       (seq 0 k)
  = map (fun j => (S (retries + j), (delay * factor ^ j)%R)) (seq 0 (S k)).
Proof.
  cbn [seq map]. f_equal.
  - f_equal; [lia|simpl; lra].
  - rewrite <- seq_shift, map_map. apply map_ext. intros j.
    f_equal; [lia|simpl; lra].
Qed.

(** The loop up to its first success: attempts [retries] to
    [retries + k - 1] fail, attempt [retries + k] succeeds. *)
Lemma retry_loop_success {T : Type} (fn : nat -> result T) (maxRetries : nat)
    (factor : R) (v : T) (k : nat) :
  forall turns retries delay,
    k < turns ->
    retries + k < Nat.max 1 maxRetries ->
    (forall j, j < k -> exists e, fn (retries + j) = Throw e) ->
    fn (retries + k) = Ok v ->
    retry_loop turns fn maxRetries retries delay factor
    = Some (Ok v,
            map (fun j => (S (retries + j), (delay * factor ^ j)%R))
              (seq 0 k)).
Proof.
  induction k as [|k IH]; intros turns retries delay Hturns Hmax Hfail Hok.
  - destruct turns as [|turns]; [lia|]. cbn [retry_loop].
    rewrite Nat.add_0_r in Hok. now rewrite Hok.
  - destruct turns as [|turns]; [lia|]. cbn [retry_loop].
    destruct (Hfail 0 ltac:(lia)) as [e He].
    rewrite Nat.add_0_r in He. rewrite He.
    destruct (Nat.leb_spec maxRetries (S retries)); [lia|].
    rewrite (IH turns (S retries) (delay * factor)%R); try lia.
    + now rewrite backoff_step.
    + intros j Hj. destruct (Hfail (S j) ltac:(lia)) as [e' He'].
      exists e'. now rewrite <- He', Nat.add_succ_r.
    + now rewrite <- Hok, Nat.add_succ_r.
Qed.

(** The loop up to the attempt at which it gives up. *)
Lemma retry_loop_failure {T : Type} (fn : nat -> result T) (maxRetries : nat)
    (factor : R) (e : JsError) (k : nat) :
  forall turns retries delay,
    k < turns ->
    retries + k < Nat.max 1 maxRetries ->
    maxRetries <= S (retries + k) ->
    (forall j, j < k -> exists e', fn (retries + j) = Throw e') ->
    fn (retries + k) = Throw e ->
    retry_loop turns fn maxRetries retries delay factor
    = Some (Throw e,
            map (fun j => (S (retries + j), (delay * factor ^ j)%R))
              (seq 0 k)).
Proof.
  induction k as [|k IH];
    intros turns retries delay Hturns Hmax Hlast Hfail Hthrow.
  - destruct turns as [|turns]; [lia|]. cbn [retry_loop].
    rewrite Nat.add_0_r in Hthrow, Hlast. rewrite Hthrow.
    destruct (Nat.leb_spec maxRetries (S retries)); [reflexivity|lia].
  - destruct turns as [|turns]; [lia|]. cbn [retry_loop].
    destruct (Hfail 0 ltac:(lia)) as [e0 He0].
    rewrite Nat.add_0_r in He0. rewrite He0.
    destruct (Nat.leb_spec maxRetries (S retries)); [lia|].
    rewrite (IH turns (S retries) (delay * factor)%R); try lia.
    + now rewrite backoff_step.
    + intros j Hj. destruct (Hfail (S j) ltac:(lia)) as [e' He'].
      exists e'. now rewrite <- He', Nat.add_succ_r.
    + now rewrite <- Hthrow, Nat.add_succ_r.
Qed.

(** X26: [retry] returns the value of the first attempt that succeeds, provided
    it is among the first [max 1 maxRetries] attempts; before attempt
    [j + 1] it has slept [initialDelay * factor ^ j].  The bound on the
    turns of the loop is never reached. *)
Theorem retry_returns_first_success {T : Type} (fn : nat -> result T)
    (maxRetries : nat) (initialDelay factor : R) (k : nat) (v : T) :
  k < Nat.max 1 maxRetries ->
  (forall j, j < k -> exists e, fn j = Throw e) ->
  fn k = Ok v ->
  retry fn maxRetries initialDelay factor
  = Some (Ok v, backoff initialDelay factor k).
Proof.
  intros Hk Hfail Hok. unfold retry, backoff.
  apply (retry_loop_success fn maxRetries factor v k (S maxRetries) 0
           initialDelay); [lia|exact Hk|exact Hfail|exact Hok].
Qed.

(** X27: [maxRetries] bounds the attempts, not the retries: when the first
    [max 1 maxRetries] attempts all fail, [retry] throws the error of the
    last of them, after [max 1 maxRetries - 1] sleeps, and [fn] is not
    called again. *)
Theorem retry_gives_up {T : Type} (fn : nat -> result T)
    (maxRetries : nat) (initialDelay factor : R) (e : JsError) :
  let attempts := Nat.max 1 maxRetries in
  (forall j, j < attempts - 1 -> exists e', fn j = Throw e') ->
  fn (attempts - 1) = Throw e ->
  retry (T:=T) fn maxRetries initialDelay factor
  = Some (Throw e, backoff initialDelay factor (attempts - 1)).
Proof.
  intros attempts Hfail Hlast. unfold retry, backoff.
  apply (retry_loop_failure fn maxRetries factor e (attempts - 1)
           (S maxRetries) 0 initialDelay);
    [unfold attempts; lia|unfold attempts; lia|unfold attempts; lia
    |exact Hfail|exact Hlast].
Qed.

End UtilsFacts.

(** Six code units cut to two: the result has eight. *)
Lemma truncateString_length_witness :
  Utils.truncateString "abcdef" 2 = "abcde..."
  /\ let len := Z.of_nat (String.length "abcdef") in
     let out := Z.of_nat (String.length (Utils.truncateString "abcdef" 2)) in
     ((len <= 2)%Z -> Utils.truncateString "abcdef" 2 = "abcdef")
     /\ ((2 < len)%Z -> (3 <= 2)%Z -> out = 2%Z)
     /\ ((2 < len)%Z -> (2 < 3)%Z ->
         out = (Z.max (len + 2 - 3) 0 + 3)%Z /\ (2 < out)%Z)
     /\ ((2 < len)%Z -> (0 <= 2 < 3)%Z -> (3 <= len)%Z -> (len <= out)%Z).
Proof.
  split; [reflexivity|].
  exact (UtilsFacts.truncateString_length "abcdef" 2).
Defined.

Lemma arraysEqual_iff_witness :
  (forall x y : string, String.eqb x y = true <-> x = y)
  /\ (Utils.arraysEqual String.eqb ["veil"; "glitch"] ["veil"; "gang"] = true
      <-> ["veil"; "glitch"] = ["veil"; "gang"]).
Proof.
  split; [exact String.eqb_eq|].
  apply (UtilsFacts.arraysEqual_iff String.eqb ["veil"; "glitch"]
           ["veil"; "gang"]).
  exact String.eqb_eq.
Defined.

Lemma flaky_fails_twice (j : nat) :
  j < 2 -> exists e, Samples.flaky j = Throw e.
Proof.
  intros Hj. destruct j as [|[|j]]; [now eexists|now eexists|lia].
Defined.

Lemma retry_returns_first_success_witness :
  2 < Nat.max 1 3
  /\ Samples.flaky 2 = Ok 7
  /\ Utils.retry Samples.flaky 3 1000 2
     = Some (Ok 7, Utils.backoff 1000 2 2).
Proof.
  split; [simpl; lia|]. split; [reflexivity|].
  apply (UtilsFacts.retry_returns_first_success Samples.flaky 3 1000 2 2 7).
  - simpl; lia.
  - exact flaky_fails_twice.
  - reflexivity.
Defined.

Lemma broken_always_fails (j : nat) :
  j < Nat.max 1 3 - 1 -> exists e, Samples.broken j = Throw e.
Proof. intros _. now eexists. Defined.

Lemma retry_gives_up_witness :
  Samples.broken 2 = Throw (LoadError "attempt 2")
  /\ Utils.retry Samples.broken 3 1000 2
     = Some (Throw (LoadError "attempt 2"), Utils.backoff 1000 2 2).
Proof.
  split; [reflexivity|].
  apply (UtilsFacts.retry_gives_up Samples.broken 3 1000 2
           (LoadError "attempt 2")).
  - exact broken_always_fails.
  - reflexivity.
Defined.

(** ** The demo of [index.ts] and the life cycle of the model *)

Lemma try_catch_total {A : Type} (body : Js A) (handler : JsError -> Js A)
    (w : World) :
  (forall e w0, exists a w1, handler e w0 = (Ok a, w1)) ->
  exists a w1, try_catch body handler w = (Ok a, w1).
Proof.
  intros Hhandler. unfold try_catch.
  destruct (body w) as [[a|e] w0]; [now eexists _, _|apply Hhandler].
Qed.

Lemma applyVrmPrivacyMask_no_model (this : Client) (vrmData : positive)
    (viewerId nftMint : option string) (w : World) :
  vrmModel this = None ->
  applyVrmPrivacyMask this vrmData viewerId nftMint w
  = (Ok vrmData, logged (mask_line viewerId) w).
Proof.
  intros Hnone. unfold applyVrmPrivacyMask. rewrite Hnone. reflexivity.
Qed.

Lemma heap_logged (l : ConsoleLine) (w : World) : heap (logged l w) = heap w.
Proof. reflexivity. Qed.

Lemma heap_called (c : CipherCall) (w : World) : heap (called c w) = heap w.
Proof. reflexivity. Qed.

Lemma heap_bytes_drawn (n : nat) (w : World) :
  heap (bytes_drawn n w) = heap w.
Proof. reflexivity. Qed.

Section DemoRun.

Context {rt : Runtime}.

Lemma protectMetadata_heap (this : Client) (metadata : GlitchGangMetadata)
    (level : PrivacyLevel.t) (w : World) :
  heap (snd (protectMetadata this metadata level w)) = heap w.
Proof.
  destruct (private_part level (attributes metadata)) as [|a l] eqn:E.
  - now rewrite (protectMetadata_nothing_private this metadata level w E).
  - assert (Hsome : private_part level (attributes metadata) <> [])
      by now rewrite E.
    destruct (decide (length (encryptionKey this) = 32)) as [Hkey|Hkey].
    + now rewrite (protectMetadata_sealing this metadata level w Hkey Hsome).
    + now rewrite (protectMetadata_bad_key this metadata level w Hkey Hsome).
Qed.


End DemoRun.



(** ** The utilities: [formatPublicKey] *)

(** X30: A key of at most 8 code units is displayed as it is; a longer key as
    its first four and its last four code units around three dots, 11
    code units in all, so that keys of 9 and 10 code units are displayed
    longer than they are. *)
Theorem formatPublicKey_shape (key : string) :
  let units := list_ascii_of_string key in
  (String.length key <= 8 -> Utils.formatPublicKey key = key)
  /\ (8 < String.length key ->
      Utils.formatPublicKey key
      = string_of_list_ascii
          (take 4 units ++ list_ascii_of_string "..."
           ++ drop (String.length key - 4) units)
      /\ String.length (Utils.formatPublicKey key) = 11).
Proof.
  intros units. unfold Utils.formatPublicKey. split.
  - intros Hshort. now destruct (Nat.leb_spec (String.length key) 8); [|lia].
  - intros Hlong.
    destruct (Nat.leb_spec (String.length key) 8); [lia|].
    assert (Hunits : length units = String.length key)
      by apply UtilsFacts.length_list_ascii_of_string.
    assert (Hhead : Utils.String_slice key 0 4
                    = string_of_list_ascii (take 4 units)).
    { unfold Utils.String_slice, Utils.slice, Utils.relative_index.
      fold units. rewrite Hunits. cbn [Z.ltb Z.compare].
      replace (Nat.min (Z.to_nat 4) (String.length key)
               - Nat.min (Z.to_nat 0) (String.length key)) with 4 by lia.
      now replace (Nat.min (Z.to_nat 0) (String.length key)) with 0 by lia. }
    assert (Htail : Utils.String_slice_from key (-4)
                    = string_of_list_ascii
                        (drop (String.length key - 4) units)).
    { unfold Utils.String_slice_from, Utils.String_slice, Utils.slice,
        Utils.relative_index.
      fold units. rewrite Hunits. cbn [Z.ltb Z.compare].
      destruct (Z.ltb_spec (Z.of_nat (String.length key)) 0); [lia|].
      replace (Z.to_nat (Z.max (Z.of_nat (String.length key) + -4) 0))
        with (String.length key - 4) by lia.
      rewrite Nat2Z.id.
      replace (Nat.min (String.length key) (String.length key)
               - (String.length key - 4)) with 4 by lia.
      f_equal. apply take_ge. rewrite length_drop. lia. }
    rewrite Hhead, Htail.
    assert (Happ : forall a b : list ascii,
               String.append (string_of_list_ascii a) (string_of_list_ascii b)
               = string_of_list_ascii (a ++ b)).
    { intros a b. induction a as [|c a IH]; [reflexivity|].
      cbn [string_of_list_ascii app].
      now rewrite RefFacts.append_cons, IH. }
    change "..." with (string_of_list_ascii (list_ascii_of_string "...")).
    rewrite !Happ. split; [reflexivity|].
    rewrite UtilsFacts.length_string_of_list_ascii, !length_app,
      length_take, length_drop, Hunits.
    cbn [length list_ascii_of_string]. lia.
Qed.

Lemma formatPublicKey_shape_witness :
  Utils.formatPublicKey "GlchWrap1" = "Glch...rap1"
  /\ let units := list_ascii_of_string "GlchWrap1" in
     (String.length "GlchWrap1" <= 8 ->
      Utils.formatPublicKey "GlchWrap1" = "GlchWrap1")
     /\ (8 < String.length "GlchWrap1" ->
         Utils.formatPublicKey "GlchWrap1"
         = string_of_list_ascii
             (take 4 units ++ list_ascii_of_string "..."
              ++ drop (String.length "GlchWrap1" - 4) units)
         /\ String.length (Utils.formatPublicKey "GlchWrap1") = 11).
Proof.
  split; [reflexivity|].
  exact (formatPublicKey_shape "GlchWrap1").
Defined.
